(** * Data Manager: the table controller and the SDK object

    A shallow embedding of the two source files of the repository:

    - [src/components/Table/Table.js]: the [DataView] component, of which the
      two callbacks handed to the virtualised table are modelled
      ([loadMore], [isItemLoaded]);
    - the SDK file that follows it (class [DataManager]): the event bus
      ([on], [off], [hasHandler], [invoke]), the action registry
      ([addAction], [removeAction], [getAction], [installActions]), the
      instrument registry ([registerInstrument]), [setMode],
      [startLabeling] and the life cycle ([initApp], [destroy], [reload]).

    JavaScript objects that the code mutates in place (the [Set]s of
    callbacks held by the [callbacks] map) live in an explicit store of
    objects, so that aliasing is visible.  Everything the two files call
    but do not define (the application store, the labeling editor, host
    callbacks, instrument initializers, React's unmount) is an external
    call: it is appended to a trace, and its outcome (return or throw) is
    given by an environment that may depend on the calls made so far.

    In the module [DataManager] the callee of an external call leaves
    the manager alone.  The module [Live] models the event bus and
    [setMode] again with callees that call the methods of the manager
    while they run, and with [Set.forEach] iterating the set as it is at
    each step; [invoke] and [setMode] are specified there, and the two
    models agree on callees that do not call back. *)

From Stdlib Require Import ZArith String List Bool Lia.
From stdpp Require Import base option list strings gmap fin_maps.

Open Scope string_scope.
Open Scope list_scope.

(** ** JavaScript values *)

(** The values that flow through the modelled code: identifiers of tasks
    and annotations, event arguments, instrument instances.  [VObj r] is a
    reference to an object, compared by identity as [===] does. *)
Inductive Value :=
| VUndefined
| VNull
| VBool (b : bool)
| VNum (z : Z)
| VStr (s : string)
| VObj (r : nat).

#[global] Instance Value_eq_dec : EqDecision Value.
Proof. solve_decision. Defined.

(** [x === y] on the values above. *)
Definition strict_eq (x y : Value) : bool := bool_decide (x = y).

(** [x == null], the test behind [?.] and [??]. *)
Definition nullish (x : Value) : bool :=
  match x with
  | VUndefined | VNull => true
  | _ => false
  end.

(** [x ?? y] *)
Definition coalesce (x y : Value) : Value := if nullish x then y else x.

(** A variable that holds [undefined], [null] or an object with fields of
    type [A]; objects are always truthy. *)
Inductive Nullable (A : Type) :=
| Undef
| Null
| Obj (a : A).
Arguments Undef {A}.
Arguments Null {A}.
Arguments Obj {A} a.

(** [x?.f] where [f] reads a field of type [Value]. *)
Definition opt_field {A} (f : A -> Value) (x : Nullable A) : Value :=
  match x with
  | Obj a => f a
  | _ => VUndefined
  end.

(** ** The [DataView] component (Table.js) *)

Module DataView.

(** The two fields of [view.dataStore] that the callbacks read. *)
Record DataStore := {
  hasNextPage : bool;
  loading : bool
}.

(** A call [view.dataStore.fetch({ interaction })]; the data store
    itself is not part of the component. *)
Inductive StoreCall :=
| Fetch (interaction : string).

(** [loadMore]: the calls it makes on the data store, in order.
<<
      if (!view.dataStore.hasNextPage && view.dataStore.loading) return;
      view.dataStore.fetch({ interaction: "scroll" });
>> *)
Definition loadMore (ds : DataStore) : list StoreCall :=
  if negb (hasNextPage ds) && loading ds then []
  else [Fetch "scroll"].

Section Rows.
(** Rows are records of the data store: objects, hence truthy. *)
Variable Row : Type.

(** [data[index]]: [None] is [undefined], which is what an index
    outside [0 .. length-1] reads. *)
Definition row_at (data : list Row) (index : Z) : option Row :=
  if (index <? 0)%Z then None else data !! Z.to_nat index.

(** [isItemLoaded], with [view.dataStore.hasNextPage] as a parameter.
<<
      const rowExists = !!data[index];
      const hasNextPage = view.dataStore.hasNextPage;
      return !hasNextPage || rowExists;
>> *)
Definition isItemLoaded (hasNextPage : bool) (data : list Row) (index : Z) : bool :=
  let rowExists := bool_decide (is_Some (row_at data index)) in
  negb hasNextPage || rowExists.
End Rows.
Arguments row_at {Row} data index.
Arguments isItemLoaded {Row} hasNextPage data index.

End DataView.

(** ** The [DataManager] class *)

Module DataManager.

(** *** Data *)

(** References to host functions (event handlers, action callbacks,
    instrument initializers) and to [Set] objects. *)
Abbreviation FnRef := nat.
Abbreviation SetRef := nat.

(** Truthiness, as tested by [!id]. *)
Definition truthy (v : Value) : bool :=
  match v with
  | VUndefined | VNull => false
  | VBool b => b
  | VNum z => negb (z =? 0)%Z
  | VStr s => negb (String.eqb s "")
  | VObj _ => true
  end.

(** An action descriptor handed to [addAction]: its [id] and the rest of
    the object. *)
Record Action := {
  action_id : Value;
  action_rest : nat
}.

(** The object [{action, callback}] stored in the [actions] map. *)
Record ActionEntry := {
  action : Action;
  callback : FnRef
}.

Record Annotation := {
  annotation_id : Value
}.

Record Task := {
  task_id : Value;
  lastAnnotation : Nullable Annotation
}.

(** What the manager reads of the application store ([this.store]): its
    identity, whether it has a [destroy] method ([store.destroy?.()]) and
    the selections of its task and annotation stores. *)
Record Store := {
  store_ref : nat;
  store_has_destroy : bool;
  taskStore_selected : Nullable Task;
  annotationStore_selected : Nullable Annotation
}.

(** What the manager reads of the editor wrapper ([this.lsf]). *)
Record LSF := {
  lsf_ref : nat;
  lsf_task : Nullable Task
}.

#[global] Instance Action_eq_dec : EqDecision Action.
Proof. solve_decision. Defined.
#[global] Instance ActionEntry_eq_dec : EqDecision ActionEntry.
Proof. solve_decision. Defined.

(** *** External calls *)

(** Calls that leave the two files.  Store calls carry the identity of
    the store that receives them. *)
Inductive Call :=
| StoreAddActions (s : nat) (a : Action)
| StoreRemoveAction (s : nat) (id : Value)
| StoreUpdateInstruments (s : nat)
| StoreSetMode (s : nat) (m : string)
| StoreDestroy (s : nat)
| UnmountComponentAtNode
| CreateApp
| ConsoleWarn (msg : string)
| Apply (cb : FnRef) (args : list Value)
| Initialize (initializer : FnRef) (store : option nat)
| LoadTask (l : nat) (taskId annotationId : Value).

(** What a JavaScript [throw] carries. *)
Inductive Exn :=
| Error (msg : string)
| TypeError
| Thrown (v : Value).

Inductive Reply :=
| Returns (v : Value)
| Throws (e : Exn).

(** The environment answers a call knowing the calls made before it. *)
Definition Env := list Call -> Call -> Reply.

(** *** State *)

(** The fields of a [DataManager] instance that the modelled methods
    use, the store of [Set] objects ([sets !! r] is the content of the
    set [r], in insertion order) and the trace of external calls.
    [actions] is a JavaScript [Map], kept in insertion order because
    [installActions] iterates over it. *)
Record State := {
  mode : string;
  store : option Store;
  lsf : option LSF;
  callbacks : gmap string SetRef;
  actions : list (Value * ActionEntry);
  instruments : gmap string Value;
  sets : list (list FnRef);
  trace : list Call
}.

Definition set_mode (m : string) (st : State) : State :=
  {| mode := m; store := store st; lsf := lsf st; callbacks := callbacks st;
     actions := actions st; instruments := instruments st; sets := sets st;
     trace := trace st |}.
Definition set_store (s : option Store) (st : State) : State :=
  {| mode := mode st; store := s; lsf := lsf st; callbacks := callbacks st;
     actions := actions st; instruments := instruments st; sets := sets st;
     trace := trace st |}.
Definition set_callbacks (c : gmap string SetRef) (st : State) : State :=
  {| mode := mode st; store := store st; lsf := lsf st; callbacks := c;
     actions := actions st; instruments := instruments st; sets := sets st;
     trace := trace st |}.
Definition set_actions (a : list (Value * ActionEntry)) (st : State) : State :=
  {| mode := mode st; store := store st; lsf := lsf st; callbacks := callbacks st;
     actions := a; instruments := instruments st; sets := sets st;
     trace := trace st |}.
Definition set_instruments (i : gmap string Value) (st : State) : State :=
  {| mode := mode st; store := store st; lsf := lsf st; callbacks := callbacks st;
     actions := actions st; instruments := i; sets := sets st;
     trace := trace st |}.
Definition set_sets (s : list (list FnRef)) (st : State) : State :=
  {| mode := mode st; store := store st; lsf := lsf st; callbacks := callbacks st;
     actions := actions st; instruments := instruments st; sets := s;
     trace := trace st |}.
Definition set_trace (t : list Call) (st : State) : State :=
  {| mode := mode st; store := store st; lsf := lsf st; callbacks := callbacks st;
     actions := actions st; instruments := instruments st; sets := sets st;
     trace := t |}.

(** *** The monad of methods: state and exceptions *)

Inductive Completion (A : Type) :=
| Normal (a : A)
| Throw (e : Exn).
Arguments Normal {A} a.
Arguments Throw {A} e.

(** A method runs from a state to a completion and a state; a [throw]
    keeps the mutations made before it. *)
Definition M (A : Type) : Type := State -> Completion A * State.

#[global] Instance M_ret : MRet M := fun A a st => (Normal a, st).
#[global] Instance M_bind : MBind M := fun A B f m st =>
  match m st with
  | (Normal a, st') => f a st'
  | (Throw e, st') => (Throw e, st')
  end.

Definition throw {A} (e : Exn) : M A := fun st => (Throw e, st).
Definition gets {A} (f : State -> A) : M A := fun st => (Normal (f st), st).
Definition modify (f : State -> State) : M unit := fun st => (Normal tt, f st).

(** The state of the promise an [async] method returns, when its
    synchronous part ends. *)
Inductive Promise (A : Type) :=
| Fulfilled (a : A)
| Rejected (e : Exn)
| Pending.
Arguments Fulfilled {A} a.
Arguments Rejected {A} e.
Arguments Pending {A}.

(** An [async] method without [await]: the body runs at once, and an
    exception rejects the promise instead of reaching the caller. *)
Definition async {A} (body : M A) : M (Promise A) := fun st =>
  match body st with
  | (Normal a, st') => (Normal (Fulfilled a), st')
  | (Throw e, st') => (Normal (Rejected e), st')
  end.

(** [l.forEach(f)]: stops at the first exception. *)
Fixpoint forEach {A} (f : A -> M unit) (l : list A) : M unit :=
  match l with
  | [] => mret tt
  | x :: r => f x ;; forEach f r
  end.

(** *** JavaScript [Map] and [Set], in insertion order *)

Fixpoint map_get {V} (k : Value) (m : list (Value * V)) : option V :=
  match m with
  | [] => None
  | (k', v) :: r => if decide (k' = k) then Some v else map_get k r
  end.

(** [m.set(k, v)]: an existing key keeps its place. *)
Fixpoint map_set {V} (k : Value) (v : V) (m : list (Value * V)) : list (Value * V) :=
  match m with
  | [] => [(k, v)]
  | (k', v') :: r =>
      if decide (k' = k) then (k, v) :: r else (k', v') :: map_set k v r
  end.

Fixpoint map_delete {V} (k : Value) (m : list (Value * V)) : list (Value * V) :=
  match m with
  | [] => []
  | (k', v') :: r =>
      if decide (k' = k) then r else (k', v') :: map_delete k r
  end.

(** [s.add(x)] on the content of a set. *)
Definition js_add (x : FnRef) (s : list FnRef) : list FnRef :=
  if decide (x ∈ s) then s else s ++ [x].

(** [s.delete(x)] *)
Definition js_delete (x : FnRef) (s : list FnRef) : list FnRef :=
  filter (fun y => y ≠ x) s.

(** [new Set()]: a fresh object, whose reference is returned. *)
Definition new_Set : M SetRef := fun st =>
  (Normal (length (sets st)), set_sets (sets st ++ [[]]) st).

(** The content of the set [r]. *)
Definition set_elements (r : SetRef) : M (list FnRef) :=
  gets (fun st => default [] (sets st !! r)).

(** In-place mutation of the set [r]. *)
Definition set_update (f : list FnRef -> list FnRef) (r : SetRef) : M unit :=
  modify (fun st => set_sets (alter f r (sets st)) st).

Section Methods.

(** The host and the collaborators. *)
Variable env : Env.

(** [instruments[name]] is truthy: [instruments] is the table of
    native instruments imported from the toolbar, which is not part of
    the two files. *)
Variable native_instruments : string -> bool.

(** An external call: recorded, then answered by the environment. *)
Definition call (c : Call) : M Value := fun st =>
  let st' := set_trace (trace st ++ [c]) st in
  match env (trace st) c with
  | Returns v => (Normal v, st')
  | Throws e => (Throw e, st')
  end.

(** [console.warn(msg)] returns [undefined]. *)
Definition console_warn (msg : string) : M Value := fun st =>
  (Normal VUndefined, set_trace (trace st ++ [ConsoleWarn msg]) st).

(** [this.store.f(...)]: reading a property of [null] is a
    [TypeError]. *)
Definition this_store : M Store := fun st =>
  match store st with
  | Some s => (Normal s, st)
  | None => (Throw TypeError, st)
  end.

(** *** Event bus *)

(** [return this.callbacks.get(eventName) ?? new Set();] *)
Definition getEventCallbacks (eventName : string) : M SetRef :=
  c ← gets callbacks;
  match c !! eventName with
  | Some r => mret r
  | None => new_Set
  end.

(** [on(eventName, callback)] *)
Definition on (eventName : string) (cb : FnRef) : M unit :=
  events ← getEventCallbacks eventName;
  set_update (js_add cb) events ;;
  modify (fun st => set_callbacks (<[eventName := events]> (callbacks st)) st).

(** [off(eventName, callback)]; [None] stands for a call without
    callback. *)
Definition off (eventName : string) (cb : option FnRef) : M unit :=
  events ← getEventCallbacks eventName;
  match cb with
  | Some f => set_update (js_delete f) events
  | None => set_update (fun _ => []) events
  end.

(** [return this.getEventCallbacks(eventName).size > 0;] *)
Definition hasHandler (eventName : string) : M bool :=
  events ← getEventCallbacks eventName;
  l ← set_elements events;
  mret (bool_decide (0 < length l)).

(** [async invoke(eventName, args)], for host callbacks that leave
    the manager alone while they run: they answer through the
    environment, and iterating over the content read at the start is
    then the iteration of [Set.forEach].  Callbacks that call the
    methods of the manager while they run, and the set iterated as it
    then is, are the subject of the module [Live] below, where this
    definition is shown to be the case of callbacks that do not. *)
Definition invoke (eventName : string) (args : list Value) : M (Promise unit) :=
  async (
    events ← getEventCallbacks eventName;
    l ← set_elements events;
    forEach (fun cb => call (Apply cb args) ;; mret tt) l).

(** *** Action registry *)

(** [addAction(action, callback)]
<<
    const {id} = action;
    if (!id) throw new Error("Action must provide a unique ID");
    this.actions.set(id, {action, callback});
    this.store.addActions(action);
>> *)
Definition addAction (a : Action) (cb : FnRef) : M unit :=
  let id := action_id a in
  if negb (truthy id) then throw (Error "Action must provide a unique ID")
  else
    modify (fun st =>
      set_actions (map_set id {| action := a; callback := cb |} (actions st)) st) ;;
    s ← this_store;
    call (StoreAddActions (store_ref s) a) ;;
    mret tt.

(** [removeAction(id)] *)
Definition removeAction (id : Value) : M unit :=
  modify (fun st => set_actions (map_delete id (actions st)) st) ;;
  s ← this_store;
  call (StoreRemoveAction (store_ref s) id) ;;
  mret tt.

(** [return this.actions.get(id)?.callback;] where [None] is
    [undefined]. *)
Definition getAction (id : Value) (st : State) : option FnRef :=
  callback <$> map_get id (actions st).

(** [installActions()]: [this.actions.forEach(...)] calls [addAction]
    on each entry.  The entries are those present when the loop starts;
    [Map.forEach] visits the same ones as long as [addAction] only
    rewrites keys that exist, which is the case when every key is the
    id of its action ([actions_wf] below). *)
Definition installActions : M unit :=
  entries ← gets actions;
  forEach (fun e => addAction (action e.2) (callback e.2)) entries.

(** *** Instrument registry *)

(** [registerInstrument(name, initializer)]
<<
    if (instruments[name]) {
      return console.warn(`Can't override native instrument ${name}`);
    }
    this.instruments.set(name, initializer({
      store: this.store, observer: observer, inject: inject }));
    this.store.updateInstruments();
>> *)
Definition registerInstrument (name : string) (initializer : FnRef) : M Value :=
  if native_instruments name then
    console_warn ("Can't override native instrument " ++ name)%string
  else
    s ← gets store;
    instance ← call (Initialize initializer (store_ref <$> s));
    modify (fun st => set_instruments (<[name := instance]> (instruments st)) st) ;;
    s ← this_store;
    call (StoreUpdateInstruments (store_ref s)) ;;
    mret VUndefined.

(** *** Mode *)

(** [async setMode(mode)]
<<
    const modeChanged = mode !== this.mode;
    this.mode = mode;
    this.store.setMode(mode);
    if (modeChanged) this.invoke('modeChanged', [this.mode]);
>> *)
Definition setMode (m : string) : M (Promise unit) :=
  async (
    current ← gets mode;
    let modeChanged := negb (String.eqb m current) in
    modify (set_mode m) ;;
    s ← this_store;
    call (StoreSetMode (store_ref s) m) ;;
    if modeChanged then
      now ← gets mode;
      invoke "modeChanged" [VStr now] ;;
      mret tt
    else mret tt).

(** *** Life cycle *)

(** The manager itself, as an argument of the [ready] event. *)
Definition this : Value := VObj 0.

(** [async initApp()], up to its [await]: [createApp(this.root, this)]
    is called and the method suspends. *)
Definition initApp : M (Promise unit) := fun st =>
  match call CreateApp st with
  | (Normal _, st') => (Normal Pending, st')
  | (Throw e, st') => (Normal (Rejected e), st')
  end.

(** [initApp] after its [await], when [createApp] has resolved to the
    store [s]:
<<
    this.store = (the store);
    this.invoke('ready', [this]);
>> *)
Definition initApp_resume (s : Store) : M (Promise unit) :=
  async (
    modify (set_store (Some s)) ;;
    invoke "ready" [this] ;;
    mret tt).

(** [this.lsf?.task && task && this.lsf.task.id === task.id] *)
Definition same_task (l : option LSF) (task : Nullable Task) : bool :=
  match l, task with
  | Some l, Obj t =>
      match lsf_task l with
      | Obj lt => strict_eq (task_id lt) (task_id t)
      | _ => false
      end
  | _, _ => false
  end.

(** [x !== undefined] *)
Definition is_defined {A} (x : Nullable A) : bool :=
  match x with
  | Undef => false
  | _ => true
  end.

(** [async startLabeling()]
<<
    let [task, annotation] = [
      this.store.taskStore.selected,
      this.store.annotationStore.selected,
    ];
    const isLabelStream = this.mode === 'labelstream';
    if (this.lsf?.task && task && this.lsf.task.id === task.id) {
      return;
    }
    if (!isLabelStream && this.lsf &&
        (this.lsf.task?.id !== task?.id || annotation !== undefined)) {
      const annotationID = annotation?.id ?? task.lastAnnotation?.id;
      this.lsf.loadTask(task.id, annotationID);
    }
>> *)
Definition startLabeling : M (Promise unit) :=
  async (
    s ← this_store;
    let task := taskStore_selected s in
    let annotation := annotationStore_selected s in
    m ← gets mode;
    let isLabelStream := String.eqb m "labelstream" in
    l ← gets lsf;
    if same_task l task then mret tt
    else
      match l with
      | Some l =>
          if negb isLabelStream &&
             (negb (strict_eq (opt_field task_id (lsf_task l)) (opt_field task_id task))
              || is_defined annotation)
          then
            match task with
            | Obj t =>
                let annotationID :=
                  coalesce (opt_field annotation_id annotation)
                           (opt_field annotation_id (lastAnnotation t)) in
                call (LoadTask (lsf_ref l) (task_id t) annotationID) ;;
                mret tt
            | _ => throw TypeError
            end
          else mret tt
      | None => mret tt
      end).

(** [destroy(detachCallbacks = true)]
<<
    if (this.store) this.store.destroy?.();
    unmountComponentAtNode(this.root);
    if (detachCallbacks) {
      this.callbacks.forEach((callbacks) => callbacks.clear());
      this.callbacks.clear();
    }
>> *)
Definition destroy (detachCallbacks : bool) : M unit :=
  s ← gets store;
  match s with
  | Some s => if store_has_destroy s then call (StoreDestroy (store_ref s)) ;; mret tt
              else mret tt
  | None => mret tt
  end ;;
  call UnmountComponentAtNode ;;
  if detachCallbacks then
    c ← gets callbacks;
    forEach (set_update (fun _ => [])) (map_to_list c).*2 ;;
    modify (set_callbacks ∅)
  else mret tt.

(** [reload()]
<<
    this.destroy(false);
    this.initApp();
    this.installActions();
>> *)
Definition reload : M unit :=
  destroy false ;;
  initApp ;;
  installActions.

(** *** Construction and use by the host *)

(** The fields as the class declares them, with [config.mode ?? "explorer"]
    and the instruments map that [prepareInstruments] built. *)
Definition initial (config_mode : option string) (prepared : gmap string Value) : State :=
  {| mode := default "explorer" config_mode;
     store := None;
     lsf := None;
     callbacks := ∅;
     actions := [];
     instruments := prepared;
     sets := [];
     trace := [] |}.

(** The fields above when [new DataManager(config)] has returned: they
    are set and [this.initApp()] has started.  Before that the
    constructor calls the instrument builders ([prepareInstruments]) and
    builds the API proxy from [this.apiConfig(...)]; these calls are not
    part of the trace, and a constructor that throws there (no
    [config.instruments], no root element for [projectId]) leaves no
    manager. *)
Definition constructor (config_mode : option string) (prepared : gmap string Value) : State :=
  (initApp (initial config_mode prepared)).2.

(** What can happen to a manager once it is constructed: the host calls
    a public method, or the event loop resumes a pending [initApp] with
    the store that [createApp] resolved to. *)
Inductive HostOp :=
| OpOn (eventName : string) (cb : FnRef)
| OpOff (eventName : string) (cb : option FnRef)
| OpHasHandler (eventName : string)
| OpInvoke (eventName : string) (args : list Value)
| OpAddAction (a : Action) (cb : FnRef)
| OpRemoveAction (id : Value)
| OpInstallActions
| OpRegisterInstrument (name : string) (initializer : FnRef)
| OpSetMode (m : string)
| OpStartLabeling
| OpDestroy (detachCallbacks : bool)
| OpReload
| OpResume (s : Store).

(** The state an operation leaves, whether it returned or threw. *)
Definition run_op (op : HostOp) (st : State) : State :=
  match op with
  | OpOn n cb => (on n cb st).2
  | OpOff n cb => (off n cb st).2
  | OpHasHandler n => (hasHandler n st).2
  | OpInvoke n args => (invoke n args st).2
  | OpAddAction a cb => (addAction a cb st).2
  | OpRemoveAction id => (removeAction id st).2
  | OpInstallActions => (installActions st).2
  | OpRegisterInstrument n i => (registerInstrument n i st).2
  | OpSetMode m => (setMode m st).2
  | OpStartLabeling => (startLabeling st).2
  | OpDestroy d => (destroy d st).2
  | OpReload => (reload st).2
  | OpResume s => (initApp_resume s st).2
  end.

Definition run_ops (ops : list HostOp) (st : State) : State :=
  foldl (fun st op => run_op op st) st ops.

End Methods.

(** *** Observations *)

(** The handlers registered for an event, in the order of the [Set]. *)
Definition handlers (eventName : string) (st : State) : list FnRef :=
  match callbacks st !! eventName with
  | Some r => default [] (sets st !! r)
  | None => []
  end.

(** The [Apply] calls that [forEach] makes over the handlers [hs] when
    the trace so far is [h]: in order, up to and including the first one
    that throws. *)
Fixpoint deliveries (env : Env) (h : list Call) (args : list Value)
    (hs : list FnRef) : list Call :=
  match hs with
  | [] => []
  | cb :: r =>
      Apply cb args ::
      match env h (Apply cb args) with
      | Returns _ => deliveries env (h ++ [Apply cb args]) args r
      | Throws _ => []
      end
  end.

(** The calls that [destroy] makes before it looks at its argument. *)
Definition destroy_calls (st : State) : list Call :=
  match store st with
  | Some s => if store_has_destroy s then [StoreDestroy (store_ref s)] else []
  | None => []
  end ++ [UnmountComponentAtNode].

(** The store of sets after [clear()] on each of the sets [refs]. *)
Definition cleared (refs : list SetRef) (l : list (list FnRef)) : list (list FnRef) :=
  foldl (fun l r => alter (fun _ => []) r l) l refs.

(** The calls [store.addActions(action)] for the entries [l]. *)
Definition added (s : Store) (l : list (Value * ActionEntry)) : list Call :=
  map (fun e => StoreAddActions (store_ref s) (action e.2)) l.

(** The loop of [invoke]. *)
Definition dispatch (env : Env) (args : list Value) : list FnRef -> M unit :=
  forEach (fun cb => call env (Apply cb args) ;; mret tt).

(** The references of the [callbacks] map point to allocated sets, and
    two events never share a set. *)
Definition callbacks_wf (st : State) : Prop :=
  (forall n r, callbacks st !! n = Some r -> r < length (sets st)) /\
  (forall n1 n2 r, callbacks st !! n1 = Some r -> callbacks st !! n2 = Some r -> n1 = n2).

(** No set holds a callback twice. *)
Definition sets_wf (st : State) : Prop := Forall NoDup (sets st).

(** A step that leaves the [callbacks] map as it is, frees no set and
    keeps the sets free of repetitions. *)
Definition keeps (st st' : State) : Prop :=
  callbacks st' = callbacks st /\
  length (sets st) <= length (sets st') /\
  (sets_wf st -> sets_wf st').

(** A step that, moreover, leaves the action registry as it is. *)
Definition neutral (st st' : State) : Prop :=
  keeps st st' /\ actions st' = actions st.

(** The invariant of the event bus along a run: the map and the sets are
    well formed, and a name has a set only if [on] was called with it. *)
Definition bus_inv (ops : list HostOp) (st : State) : Prop :=
  callbacks_wf st /\
  sets_wf st /\
  forall n, is_Some (callbacks st !! n) -> exists cb, OpOn n cb ∈ ops.

(** The keys of the [actions] map are distinct, and each is the truthy id
    of the action stored under it. *)
Definition actions_wf (st : State) : Prop :=
  NoDup (actions st).*1 /\
  Forall (fun e : Value * ActionEntry =>
            e.1 = action_id (action e.2) /\ truthy e.1 = true) (actions st).

End DataManager.

(** ** Scenarios *)

Module Scenarios.
Import DataManager.

(** A host in which every external call returns [undefined]. *)
Definition quiet_env : Env := fun _ _ => Returns VUndefined.

(** A host whose instrument initializers return the object [7]. *)
Definition instrument_env : Env := fun _ c =>
  match c with
  | Initialize _ _ => Returns (VObj 7)
  | _ => Returns VUndefined
  end.


(** A table of native instruments: the instrument names of the default
    toolbar. *)
Definition toolbar_instruments (name : string) : bool :=
  bool_decide (name ∈ ["actions"; "columns"; "filters"; "ordering";
                       "label-button"; "loading-possum"; "error-box";
                       "refresh"; "view-toggle"]).

(** Two actions with the id [x]. *)
Definition action_x1 : Action := {| action_id := VStr "x"; action_rest := 1 |}.

(** A store without selection. *)
Definition app_store (r : nat) : Store :=
  {| store_ref := r; store_has_destroy := true;
     taskStore_selected := Undef; annotationStore_selected := Undef |}.

(** A manager built with the default configuration. *)
Definition created : State := constructor quiet_env None ∅.

(** The same, once [createApp] has resolved to the store [1]. *)
Definition ready (env : Env) : State :=
  run_ops env toolbar_instruments [OpResume (app_store 1)] created.

(** Two handlers registered for the event [update]. *)
Definition two_handlers (env : Env) : State :=
  run_ops env toolbar_instruments
    [OpOn "update" 1; OpOn "update" 2] (ready env).

(** A ready manager with the handler [4] on [modeChanged] and the
    handler [5] on [ready]. *)
Definition listening : State :=
  run_ops quiet_env toolbar_instruments
    [OpOn "modeChanged" 4; OpOn "ready" 5] (ready quiet_env).

(** The listening manager, with the action [x] registered. *)
Definition configured : State :=
  (addAction quiet_env action_x1 10 listening).2.

(** The task [12], whose last annotation is [99]. *)
Definition task_12 : Task :=
  {| task_id := VNum 12; lastAnnotation := Obj {| annotation_id := VNum 99 |} |}.

(** A store in which the task [12] is selected and no annotation is. *)
Definition labeling_store : Store :=
  {| store_ref := 1; store_has_destroy := true;
     taskStore_selected := Obj task_12; annotationStore_selected := Undef |}.

(** An explorer in which the task [12] is selected while the editor [2]
    shows the task [loaded]. *)
Definition editing (loaded : Z) : State :=
  {| mode := "explorer";
     store := Some labeling_store;
     lsf := Some {| lsf_ref := 2;
                    lsf_task := Obj {| task_id := VNum loaded; lastAnnotation := Undef |} |};
     callbacks := ∅; actions := []; instruments := ∅; sets := [];
     trace := [CreateApp] |}.

(** A session of a host that subscribes to [ready] only. *)
Definition session : list HostOp :=
  [OpResume (app_store 1); OpOn "ready" 5; OpSetMode "labelstream";
   OpOff "ready" None; OpDestroy false].

(** The ready manager after [addAction({id: "x"}, 10)]. *)
Definition registered_x : State :=
  (addAction quiet_env action_x1 10 (ready quiet_env)).2.

End Scenarios.

(** ** The rest of the [DataView] component (Table.js) *)

Module DataViewRender.
Import DataManager.

(** What the injector and the component read of the root store and of
    the current view.  A field of type [option] may be nullish ([None]);
    [x?.f ?? d] is then [default d (x ≫= f)]. *)
Record DataStoreFields (Row : Type) := {
  ds_list : option (list Row);
  ds_total : option Z;
  ds_loading : option bool;
  ds_selected : option Row;
  ds_highlighted : option Row
}.
Arguments ds_list {Row} _.
Arguments ds_total {Row} _.
Arguments ds_loading {Row} _.
Arguments ds_selected {Row} _.
Arguments ds_highlighted {Row} _.

(** What the table or the grid is built from, once the component has
    read it off the current view: its [type], its [selected] array,
    [view.root.isLabeling] (as a truth value) and
    [view.dataStore.loading]. *)
Record ViewFields := {
  view_type : option string;
  view_selected : option (list Value);
  view_root_isLabeling : bool;
  view_dataStore_loading : bool
}.

(** The current view as the root store holds it.  Its [root] and its
    [dataStore] are objects of their own, either of which may be
    missing ([None]): [current_root] is the truth value of
    [view.root.isLabeling] when [view.root] is there. *)
Record ViewObject := {
  current_type : option string;
  current_selected : option (list Value);
  current_root : option bool;
  current_dataStore : option DataView.DataStore
}.

Record ProjectFields := {
  task_count : option Z
}.

Record RootStore (Row : Type) := {
  dataStore : option (DataStoreFields Row);
  currentView : option ViewObject;
  isLabeling : option bool;
  project : option ProjectFields
}.
Arguments dataStore {Row} _.
Arguments currentView {Row} _.
Arguments isLabeling {Row} _.
Arguments project {Row} _.

(** The props computed by the injector that the component branches on
    (the columns and the selection are passed through unchanged and are
    left out). *)
Record Props (Row : Type) := {
  view : option ViewObject;
  viewType : string;
  selectedCount : nat;
  props_isLabeling : bool;
  data : list Row;
  total : Z;
  isLoading : bool;
  hasData : bool;
  focusedItem : option Row
}.
Arguments view {Row} _.
Arguments viewType {Row} _.
Arguments selectedCount {Row} _.
Arguments props_isLabeling {Row} _.
Arguments data {Row} _.
Arguments total {Row} _.
Arguments isLoading {Row} _.
Arguments hasData {Row} _.
Arguments focusedItem {Row} _.

(** [injector]
<<
    view: currentView,
    viewType: currentView?.type ?? "list",
    selectedCount: currentView?.selected?.length ?? 0,
    isLabeling: store.isLabeling ?? false,
    data: dataStore?.list ?? [],
    total: dataStore?.total ?? 0,
    isLoading: dataStore?.loading ?? true,
    hasData: (store.project?.task_count ?? 0) > 0,
    focusedItem: dataStore?.selected ?? dataStore?.highlighted,
>> *)
Definition injector {Row} (store : RootStore Row) : Props Row :=
  {| view := currentView store;
     viewType := default "list" (currentView store ≫= current_type);
     selectedCount := default 0 (length <$> (currentView store ≫= current_selected));
     props_isLabeling := default false (isLabeling store);
     data := default [] (dataStore store ≫= ds_list);
     total := default 0%Z (dataStore store ≫= ds_total);
     isLoading := default true (dataStore store ≫= ds_loading);
     hasData := (0 <? default 0 (project store ≫= task_count))%Z;
     focusedItem :=
       match dataStore store ≫= ds_selected with
       | Some row => Some row
       | None => dataStore store ≫= ds_highlighted
       end |}.

(** What the component renders inside its container. *)
Inductive Rendered (C : Type) :=
| Spinner
| Empty (description : string) (importButton : bool)
| Shown (content : C).
Arguments Spinner {C}.
Arguments Empty {C} description importButton.
Arguments Shown {C} content.

(** [renderContent(content)]
<<
    if (isLoading && total === 0 && !isLabeling) {
      return <Spinner size="large" />;
    } else if (total === 0 || !hasData) {
      return <Empty description={hasData ? <span>Nothing's found.</span>
          : "Before you can start labeling, you need to import tasks."}>
          {!hasData && <Button href="./import">Go to import</Button>}
        </Empty>;
    }
    return content;
>> *)
Definition renderContent {C} (isLoading : bool) (total : Z) (isLabeling hasData : bool)
    (content : C) : Rendered C :=
  if isLoading && (total =? 0)%Z && negb isLabeling then Spinner
  else if (total =? 0)%Z || negb hasData then
    Empty (if hasData then "Nothing's found."
           else "Before you can start labeling, you need to import tasks.")
          (negb hasData)
  else Shown content.

(** The props of the table that depend on the state. *)
Record TableProps := {
  fitContent : bool;
  sortingEnabled : bool;
  stopInteractions : bool
}.

Inductive Content :=
| TableContent (p : TableProps)
| GridContent.

(** [content]
<<
    view.root.isLabeling || viewType === "list" ? (
      <Table fitContent={isLabeling} sortingEnabled={view.type === "list"}
             stopInteractions={view.dataStore.loading} ... />
    ) : ( <GridView ... /> )
>> *)
Definition content (v : ViewFields) (viewType : string) (isLabeling : bool) : Content :=
  if view_root_isLabeling v || String.eqb viewType "list" then
    TableContent {| fitContent := isLabeling;
                    sortingEnabled := bool_decide (view_type v = Some "list");
                    stopInteractions := view_dataStore_loading v |}
  else GridContent.

(** The component applied to the injected props.  While it renders it
    reads, in this order and without a guard,
<<
    [view.dataStore]               (dependencies of loadMore)
    [view.dataStore.hasNextPage]   (dependencies of isItemLoaded)
    view.root.isLabeling           (content)
>>
    so that [None], the [TypeError] of reading a property of [undefined]
    or [null], is the outcome without a current view, with a view that
    has no [dataStore], and with a view that has no [root]. *)
Definition DataView_component {Row} (store : RootStore Row) : option (Rendered Content) :=
  let props := injector store in
  v ← view props;
  ds ← current_dataStore v;
  labeling ← current_root v;
  let fields := {| view_type := current_type v;
                   view_selected := current_selected v;
                   view_root_isLabeling := labeling;
                   view_dataStore_loading := DataView.loading ds |} in
  Some (renderContent (isLoading props) (total props) (props_isLabeling props)
          (hasData props)
          (content fields (viewType props) (props_isLabeling props))).

(** The state [showSource] behind the modal: [React.useState()] starts
    it as [undefined], and both handlers of the modal call
    [setShowSource("")]. *)
Inductive ModalEvent :=
| OnOk
| OnCancel.

Definition showSource_initial : Value := VUndefined.

Definition modal_handler (e : ModalEvent) : Value :=
  match e with
  | OnOk => VStr ""
  | OnCancel => VStr ""
  end.

Definition modal_run (events : list ModalEvent) : Value :=
  foldl (fun _ e => modal_handler e) showSource_initial events.

(** [visible={!!showSource}] *)
Definition modal_visible (showSource : Value) : bool := truthy showSource.

End DataViewRender.

(** ** The rest of the [DataManager] class *)

Module ManagerSetup.
Import DataManager.

(** *** The mode getters *)


(** [get isLabelStream() { return this.mode === "labelstream"; }] *)
Definition isLabelStream (st : State) : bool := String.eqb (mode st) "labelstream".

(** *** The project id and the API configuration *)

(** The root element, as far as [projectId] reads it:
    [this.root.dataset?.projectId]. *)
Record Dataset := {
  dataset_projectId : Value
}.

Record RootElement := {
  dataset : Nullable Dataset
}.

(** The part of the manager and of the page that [projectId] and
    [apiConfig] work on: the private field [_projectId], the root, and
    the plain objects allocated so far ([objects !! r] holds the
    properties of the object [r]). *)
Record Setup := {
  _projectId : Value;
  root : Nullable RootElement;
  objects : list (gmap string Value)
}.

Definition set__projectId (v : Value) (st : Setup) : Setup :=
  {| _projectId := v; root := root st; objects := objects st |}.
Definition set_root (r : Nullable RootElement) (st : Setup) : Setup :=
  {| _projectId := _projectId st; root := r; objects := objects st |}.
Definition set_objects (o : list (gmap string Value)) (st : Setup) : Setup :=
  {| _projectId := _projectId st; root := root st; objects := o |}.

(** [get projectId()]
<<
    return (this._projectId = this._projectId ?? this.root.dataset?.projectId);
>> *)
Definition get_projectId (st : Setup) : Completion Value * Setup :=
  if nullish (_projectId st) then
    match root st with
    | Obj r =>
        let v := opt_field dataset_projectId (dataset r) in
        (Normal v, set__projectId v st)
    | _ => (Throw TypeError, st)
    end
  else (Normal (_projectId st), set__projectId (_projectId st) st).

(** [set projectId(value) { this._projectId = value; }] *)
Definition set_projectId (value : Value) (st : Setup) : Setup :=
  set__projectId value st.

(** The argument of [apiConfig]; [None] is a nullish object. *)
Record ApiOptions := {
  apiGateway : Value;
  apiEndpoints : option (gmap string Value);
  apiMockDisabled : Value;
  apiSharedParams : option (gmap string Value);
  apiHeaders : Value
}.

(** [o[k]] *)
Definition prop (o : gmap string Value) (k : string) : Value :=
  default VUndefined (o !! k).

(** [Object.assign(target, source)] on the properties of the target. *)
Definition assign (source target : gmap string Value) : gmap string Value :=
  source ∪ target.

Section ApiConfig.

(** The object [APIConfig] imported from [./api-config]: a reference to
    an object that exists before any manager does. *)
Variable APIConfig : nat.

(** [apiConfig({apiGateway, apiEndpoints, apiMockDisabled,
    apiSharedParams, apiHeaders})]
<<
    const config = Object.assign({}, APIConfig);
    config.gateway = apiGateway ?? config.gateway;
    config.mockDisabled = apiMockDisabled;
    config.commonHeaders = apiHeaders;
    Object.assign(config.endpoints, apiEndpoints ?? {});
    Object.assign(config, {
      sharedParams: { project: this.projectId, ...(apiSharedParams ?? {}) },
    });
    return config;
>>
    The copy of [APIConfig] is shallow, so [config.endpoints] is the
    object that [APIConfig.endpoints] refers to.  [Object.assign] throws
    a [TypeError] on a nullish target; a primitive target is boxed and
    the properties copied to the box are lost (a string target, whose
    box has read-only index properties, is outside the model). *)
Definition apiConfig (o : ApiOptions) (st : Setup) : Completion Value * Setup :=
  let source := default ∅ (objects st !! APIConfig) in
  let c := length (objects st) in
  let config :=
    <["commonHeaders" := apiHeaders o]>
      (<["mockDisabled" := apiMockDisabled o]>
         (<["gateway" := coalesce (apiGateway o) (prop source "gateway")]> source)) in
  let st1 := set_objects (objects st ++ [config]) st in
  let endpoints := prop config "endpoints" in
  if nullish endpoints then (Throw TypeError, st1)
  else
    let st2 :=
      match endpoints with
      | VObj e =>
          set_objects (alter (assign (default ∅ (apiEndpoints o))) e (objects st1)) st1
      | _ => st1
      end in
    match get_projectId st2 with
    | (Throw e, st3) => (Throw e, st3)
    | (Normal project, st3) =>
        let sp := length (objects st3) in
        let sharedParams :=
          assign (default ∅ (apiSharedParams o)) {["project" := project]} in
        (Normal (VObj c),
         set_objects
           (alter (assign {["sharedParams" := VObj sp]}) c (objects st3 ++ [sharedParams]))
           st3)
    end.

End ApiConfig.

End ManagerSetup.

(** ** The editor life cycle *)

Module Editor.
Import DataManager.

(** The calls of [initLSF] and [destroyLSF] that leave the class; they
    are recorded in a trace of their own. *)
Inductive EditorCall :=
| ConsoleLog (msg : string)
| NewLSFWrapper (task : Nullable Task) (annotation : Nullable Annotation)
    (isLabelStream : bool)
| LsfDestroy (l : nat).

(** The editor side: what [new LSFWrapper(...)] constructs, or throws,
    and whether [lsf.destroy()] throws. *)
Record EditorEnv := {
  construct : list EditorCall -> Nullable Task -> Nullable Annotation -> bool ->
              Completion LSF;
  destroyed : list EditorCall -> nat -> Completion unit
}.

Record EditorState := {
  manager : State;
  editor_trace : list EditorCall
}.

Definition set_lsf (l : option LSF) (st : State) : State :=
  {| mode := mode st; store := store st; lsf := l; callbacks := callbacks st;
     actions := actions st; instruments := instruments st; sets := sets st;
     trace := trace st |}.

Section EditorMethods.
Variable env : EditorEnv.

(** [initLSF(element)]
<<
    const task = this.store.taskStore.selected;
    const annotation = this.store.annotationStore.selected;
    const isLabelStream = this.mode === 'labelstream';
    if (!this.lsf) {
      console.log("Initialize LSF");
      this.lsf = new LSFWrapper(this, element, {
        ...this.labelStudioOptions, task, annotation, isLabelStream });
    }
>> *)
Definition initLSF (st : EditorState) : Completion unit * EditorState :=
  match store (manager st) with
  | None => (Throw TypeError, st)
  | Some s =>
      let task := taskStore_selected s in
      let annotation := annotationStore_selected s in
      let isLabelStream := String.eqb (mode (manager st)) "labelstream" in
      match lsf (manager st) with
      | Some _ => (Normal tt, st)
      | None =>
          let logged := editor_trace st ++ [ConsoleLog "Initialize LSF"] in
          let called := logged ++ [NewLSFWrapper task annotation isLabelStream] in
          match construct env logged task annotation isLabelStream with
          | Normal l =>
              (Normal tt,
               {| manager := set_lsf (Some l) (manager st); editor_trace := called |})
          | Throw e =>
              (Throw e, {| manager := manager st; editor_trace := called |})
          end
      end
  end.

(** [destroyLSF()]
<<
    this.lsf?.destroy();
    this.lsf = undefined;
>> *)
Definition destroyLSF (st : EditorState) : Completion unit * EditorState :=
  match lsf (manager st) with
  | None => (Normal tt, {| manager := set_lsf None (manager st);
                           editor_trace := editor_trace st |})
  | Some l =>
      let called := editor_trace st ++ [LsfDestroy (lsf_ref l)] in
      match destroyed env (editor_trace st) (lsf_ref l) with
      | Normal _ =>
          (Normal tt, {| manager := set_lsf None (manager st); editor_trace := called |})
      | Throw e =>
          (Throw e, {| manager := manager st; editor_trace := called |})
      end
  end.

End EditorMethods.

End Editor.

(** ** The event bus with callees that call back *)

(** In [DataManager] above a host function answers a call and leaves
    the manager alone.  JavaScript allows more: [invoke] runs
    [callback.apply(this, args)] inside [Set.prototype.forEach], so a
    handler holds the manager and may call its methods before it
    returns, for instance [off] on the very set that is being iterated;
    and [forEach] iterates the set as it is at each step.  This module
    models the event bus and [setMode] with such callees.

    A [Set] is its list of entries: [delete] and [clear] empty entries
    and keep their places, [add] appends, and [forEach] walks the list
    by index, skipping empty entries, until it passes the end of the
    list as it then is.  Methods run with fuel, since a handler that
    keeps adding handlers, or that invokes the event it handles, makes
    [invoke] run for ever: [None] is a run that needs more fuel. *)

Module Live.
Import DataManager.

(** A call of a public method of the manager, made by a callee while it
    runs.  The methods that use neither the mode nor the event bus are
    left out. *)
Inductive MethodCall :=
| CallOn (eventName : string) (cb : FnRef)
| CallOff (eventName : string) (cb : option FnRef)
| CallHasHandler (eventName : string)
| CallInvoke (eventName : string) (args : list Value)
| CallSetMode (m : string)
| CallDestroy (detachCallbacks : bool).

(** The host answers an external call, knowing the calls made before
    it, with the method calls that the callee makes on the manager while
    it runs and with the way it ends. *)
Definition Host := list Call -> Call -> list MethodCall * Reply.

(** The fields that the event bus and [setMode] use, the store of [Set]
    objects ([sets !! r] holds the entries of the set [r]; [None] is an
    emptied entry) and the trace of external calls. *)
Record Manager := {
  mode : string;
  store : option Store;
  callbacks : gmap string SetRef;
  sets : list (list (option FnRef));
  trace : list Call
}.

Definition set_mode (m : string) (st : Manager) : Manager :=
  {| mode := m; store := store st; callbacks := callbacks st; sets := sets st;
     trace := trace st |}.
Definition set_callbacks (c : gmap string SetRef) (st : Manager) : Manager :=
  {| mode := mode st; store := store st; callbacks := c; sets := sets st;
     trace := trace st |}.
Definition set_sets (s : list (list (option FnRef))) (st : Manager) : Manager :=
  {| mode := mode st; store := store st; callbacks := callbacks st; sets := s;
     trace := trace st |}.
Definition set_trace (t : list Call) (st : Manager) : Manager :=
  {| mode := mode st; store := store st; callbacks := callbacks st; sets := sets st;
     trace := t |}.

(** The elements of a set, in insertion order. *)
Definition elements (entries : list (option FnRef)) : list FnRef := omap id entries.

(** [s.add(x)] *)
Definition js_add (x : FnRef) (entries : list (option FnRef)) : list (option FnRef) :=
  if decide (Some x ∈ entries) then entries else entries ++ [Some x].

(** [s.delete(x)] *)
Definition js_delete (x : FnRef) (entries : list (option FnRef)) : list (option FnRef) :=
  (fun e => if decide (e = Some x) then None else e) <$> entries.

(** [s.clear()] *)
Definition js_clear (entries : list (option FnRef)) : list (option FnRef) :=
  (fun _ => None) <$> entries.

(** [return this.callbacks.get(eventName) ?? new Set();] *)
Definition getEventCallbacks (eventName : string) (st : Manager) : SetRef * Manager :=
  match callbacks st !! eventName with
  | Some r => (r, st)
  | None => (length (sets st), set_sets (sets st ++ [[]]) st)
  end.

(** [on(eventName, callback)] *)
Definition on (eventName : string) (cb : FnRef) (st : Manager) : Manager :=
  let '(events, st1) := getEventCallbacks eventName st in
  let st2 := set_sets (alter (js_add cb) events (sets st1)) st1 in
  set_callbacks (<[eventName := events]> (callbacks st2)) st2.

(** [off(eventName, callback)] *)
Definition off (eventName : string) (cb : option FnRef) (st : Manager) : Manager :=
  let '(events, st1) := getEventCallbacks eventName st in
  match cb with
  | Some f => set_sets (alter (js_delete f) events (sets st1)) st1
  | None => set_sets (alter js_clear events (sets st1)) st1
  end.

(** [return this.getEventCallbacks(eventName).size > 0;] *)
Definition hasHandler (eventName : string) (st : Manager) : bool * Manager :=
  let '(events, st1) := getEventCallbacks eventName st in
  (bool_decide (0 < length (elements (default [] (sets st1 !! events)))), st1).

(** [this.callbacks.forEach((callbacks) => callbacks.clear());
     this.callbacks.clear();] *)
Definition detach (st : Manager) : Manager :=
  set_callbacks ∅
    (set_sets (foldl (fun l r => alter js_clear r l) (sets st)
                 (map_to_list (callbacks st)).*2) st).

(** What a method returns. *)
Inductive Result :=
| Undefined
| Boolean (b : bool)
| Settled (p : Promise unit).

(** What runs: a method of the manager, an external call, or the rest
    of [events.forEach(callback => callback.apply(this, args))] from the
    entry [index] on. *)
Inductive Instr :=
| Method (m : MethodCall)
| External (c : Call)
| ForEach (events : SetRef) (args : list Value) (index : nat).

(** The promise of an [async] method without [await]. *)
Definition settle (c : Completion Result) : Completion Result :=
  match c with
  | Normal _ => Normal (Settled (Fulfilled tt))
  | Throw e => Normal (Settled (Rejected e))
  end.

(** The method calls of a callee, one after the other; what they return
    or throw is the callee's business. *)
Fixpoint run_calls (step : MethodCall -> Manager -> option (Completion Result * Manager))
    (calls : list MethodCall) (st : Manager) : option Manager :=
  match calls with
  | [] => Some st
  | m :: rest =>
      match step m st with
      | Some (_, st') => run_calls step rest st'
      | None => None
      end
  end.

Section Run.
Variable host : Host.

Fixpoint exec (fuel : nat) (i : Instr) (st : Manager) : option (Completion Result * Manager) :=
  match fuel with
  | 0 => None
  | S fuel =>
      match i with
      | External c =>
          (* the call is recorded, the callee runs and calls back, then
             it returns or throws *)
          let '(calls, reply) := host (trace st) c in
          match run_calls (fun m => exec fuel (Method m)) calls
                  (set_trace (trace st ++ [c]) st) with
          | Some st' =>
              Some (match reply with
                    | Returns _ => Normal Undefined
                    | Throws e => Throw e
                    end, st')
          | None => None
          end
      | ForEach events args index =>
          match default [] (sets st !! events) !! index with
          | None => Some (Normal Undefined, st)
          | Some None => exec fuel (ForEach events args (S index)) st
          | Some (Some cb) =>
              match exec fuel (External (Apply cb args)) st with
              | Some (Normal _, st') => exec fuel (ForEach events args (S index)) st'
              | Some (Throw e, st') => Some (Throw e, st')
              | None => None
              end
          end
      | Method (CallOn eventName cb) => Some (Normal Undefined, on eventName cb st)
      | Method (CallOff eventName cb) => Some (Normal Undefined, off eventName cb st)
      | Method (CallHasHandler eventName) =>
          let '(b, st') := hasHandler eventName st in Some (Normal (Boolean b), st')
      | Method (CallInvoke eventName args) =>
          (* async invoke(eventName, args) *)
          let '(events, st1) := getEventCallbacks eventName st in
          match exec fuel (ForEach events args 0) st1 with
          | Some (c, st') => Some (settle c, st')
          | None => None
          end
      | Method (CallSetMode m) =>
          (* async setMode(mode) *)
          let modeChanged := negb (String.eqb m (mode st)) in
          let st1 := set_mode m st in
          match store st1 with
          | None => Some (Normal (Settled (Rejected TypeError)), st1)
          | Some s =>
              match exec fuel (External (StoreSetMode (store_ref s) m)) st1 with
              | Some (Normal _, st2) =>
                  if modeChanged then
                    match exec fuel (Method (CallInvoke "modeChanged" [VStr (mode st2)])) st2 with
                    | Some (_, st3) => Some (Normal (Settled (Fulfilled tt)), st3)
                    | None => None
                    end
                  else Some (Normal (Settled (Fulfilled tt)), st2)
              | Some (Throw e, st2) => Some (Normal (Settled (Rejected e)), st2)
              | None => None
              end
          end
      | Method (CallDestroy detachCallbacks) =>
          (* destroy(detachCallbacks = true) *)
          let destroyed :=
            match store st with
            | Some s =>
                if store_has_destroy s then exec fuel (External (StoreDestroy (store_ref s))) st
                else Some (Normal Undefined, st)
            | None => Some (Normal Undefined, st)
            end in
          match destroyed with
          | Some (Normal _, st1) =>
              match exec fuel (External UnmountComponentAtNode) st1 with
              | Some (Normal _, st2) =>
                  Some (Normal Undefined, if detachCallbacks then detach st2 else st2)
              | Some (Throw e, st2) => Some (Throw e, st2)
              | None => None
              end
          | Some (Throw e, st1) => Some (Throw e, st1)
          | None => None
          end
      end
  end.

(** [async invoke(eventName, args)]
<<
    this.getEventCallbacks(eventName).forEach((callback) =>
      callback.apply(this, args)
    );
>> *)
Definition invoke (fuel : nat) (eventName : string) (args : list Value) (st : Manager)
    : option (Completion Result * Manager) :=
  exec fuel (Method (CallInvoke eventName args)) st.

(** [async setMode(mode)]
<<
    const modeChanged = mode !== this.mode;
    this.mode = mode;
    this.store.setMode(mode);
    if (modeChanged) this.invoke('modeChanged', [this.mode]);
>> *)
Definition setMode (fuel : nat) (m : string) (st : Manager)
    : option (Completion Result * Manager) :=
  exec fuel (Method (CallSetMode m)) st.

End Run.

(** *** Observations *)

(** The handlers registered for an event, in the order of the [Set]. *)
Definition handlers (eventName : string) (st : Manager) : list FnRef :=
  match callbacks st !! eventName with
  | Some r => elements (default [] (sets st !! r))
  | None => []
  end.

(** The number of entries, emptied ones included, of the set of an
    event. *)
Definition entries (eventName : string) (st : Manager) : nat :=
  match callbacks st !! eventName with
  | Some r => length (default [] (sets st !! r))
  | None => 0
  end.

(** A callee that does not call back into the manager. *)
Definition quiet (host : Host) (c : Call) : Prop :=
  forall h, (host h c).1 = [].

(** The way the callees end. *)
Definition reply (host : Host) : Env := fun h c => (host h c).2.

(** The handler applications of one [invoke]. *)
Definition applied (args : list Value) (hs : list FnRef) : list Call :=
  map (fun cb => Apply cb args) hs.

(** The way [forEach] ends over the handlers [hs], when none of them
    calls back and the trace so far is [h]: normally, or with the
    exception of the first handler that throws. *)
Fixpoint ending (env : Env) (h : list Call) (args : list Value)
    (hs : list FnRef) : Completion Result :=
  match hs with
  | [] => Normal Undefined
  | cb :: r =>
      match env h (Apply cb args) with
      | Returns _ => ending env (h ++ [Apply cb args]) args r
      | Throws e => Throw e
      end
  end.

(** The manager of this module that a state of [DataManager] stands
    for, and the host in which no callee calls back. *)
Definition embed (st : State) : Manager :=
  {| mode := DataManager.mode st;
     store := DataManager.store st;
     callbacks := DataManager.callbacks st;
     sets := map (map Some) (DataManager.sets st);
     trace := DataManager.trace st |}.

Definition external (env : Env) : Host := fun h c => ([], env h c).

(** More generally, a manager stands for a state of [DataManager] when
    they agree on the fields and each set has the elements, in order,
    that the state gives it. *)
Definition stands_for (m : Manager) (st : State) : Prop :=
  mode m = DataManager.mode st /\
  store m = DataManager.store st /\
  callbacks m = DataManager.callbacks st /\
  elements <$> sets m = DataManager.sets st /\
  trace m = DataManager.trace st.

End Live.

(** ** More scenarios *)

Module MoreScenarios.
Import DataManager.
Import Scenarios.
Import ManagerSetup.
Import Editor.

(** A root store that has a grid view but no data store yet; the view
    has a root and a data store of its own. *)
Definition starting_store : DataViewRender.RootStore nat :=
  {| DataViewRender.dataStore := None;
     DataViewRender.currentView :=
       Some {| DataViewRender.current_type := Some "grid";
               DataViewRender.current_selected := None;
               DataViewRender.current_root := Some false;
               DataViewRender.current_dataStore :=
                 Some {| DataView.hasNextPage := false; DataView.loading := false |} |};
     DataViewRender.isLabeling := None;
     DataViewRender.project := None |}.

(** The same root store, with a view that has no data store of its
    own. *)
Definition detached_view_store : DataViewRender.RootStore nat :=
  {| DataViewRender.dataStore := None;
     DataViewRender.currentView :=
       Some {| DataViewRender.current_type := Some "grid";
               DataViewRender.current_selected := None;
               DataViewRender.current_root := Some false;
               DataViewRender.current_dataStore := None |};
     DataViewRender.isLabeling := None;
     DataViewRender.project := None |}.

(** An explorer whose editor [2] shows the task [11] while no task is
    selected in the store. *)
Definition editing_unselected : State :=
  {| mode := "explorer";
     store := Some (app_store 1);
     lsf := Some {| lsf_ref := 2;
                    lsf_task := Obj {| task_id := VNum 11; lastAnnotation := Undef |} |};
     callbacks := ∅; actions := []; instruments := ∅; sets := [];
     trace := [CreateApp] |}.

(** An explorer in which the task [12] and an annotation whose id is
    [null] are selected, while the editor [2] shows the task [11]. *)
Definition editing_null_annotation : State :=
  {| mode := "explorer";
     store := Some {| store_ref := 1; store_has_destroy := true;
                      taskStore_selected := Obj task_12;
                      annotationStore_selected := Obj {| annotation_id := VNull |} |};
     lsf := Some {| lsf_ref := 2;
                    lsf_task := Obj {| task_id := VNum 11; lastAnnotation := Undef |} |};
     callbacks := ∅; actions := []; instruments := ∅; sets := [];
     trace := [CreateApp] |}.

(** A page whose root carries the project id [7]; the object [0] is
    [APIConfig], with the gateway [/api] and the endpoints object [1]. *)
Definition page : Setup :=
  {| _projectId := VUndefined;
     root := Obj {| dataset := Obj {| dataset_projectId := VStr "7" |} |};
     objects := [ {[ "gateway" := VStr "/api"; "endpoints" := VObj 1 ]};
                  {[ "tasks" := VStr "/tasks" ]} ] |}.

(** Options that add the endpoint [columns] and give a project of their
    own among the shared parameters. *)
Definition options : ApiOptions :=
  {| apiGateway := VUndefined;
     apiEndpoints := Some {[ "columns" := VStr "/columns" ]};
     apiMockDisabled := VBool true;
     apiSharedParams := Some {[ "project" := VNum 3 ]};
     apiHeaders := VUndefined |}.

(** Options that give nothing. *)
Definition no_options : ApiOptions :=
  {| apiGateway := VUndefined; apiEndpoints := None; apiMockDisabled := VUndefined;
     apiSharedParams := None; apiHeaders := VUndefined |}.

(** An editor side that constructs the wrapper [2] around the task it is
    given, and whose [destroy] returns. *)
Definition editor_env : EditorEnv :=
  {| construct := fun _ task _ _ => Normal {| lsf_ref := 2; lsf_task := task |};
     destroyed := fun _ _ => Normal tt |}.

(** The same, with a [destroy] that throws. *)
Definition stuck_editor_env : EditorEnv :=
  {| construct := fun _ task _ _ => Normal {| lsf_ref := 2; lsf_task := task |};
     destroyed := fun _ _ => Throw (Error "busy") |}.

(** The ready manager, with no editor call made so far. *)
Definition no_editor : EditorState :=
  {| manager := ready quiet_env; editor_trace := [] |}.

(** A manager whose app is not there yet: [createApp] has not resolved
    and the store is still [null]. *)
Definition starting : Live.Manager :=
  {| Live.mode := "explorer"; Live.store := None; Live.callbacks := ∅;
     Live.sets := []; Live.trace := [] |}.

(** The same, once the host has subscribed the handler [4] to
    [modeChanged]. *)
Definition starting_listening : Live.Manager :=
  Live.on "modeChanged" 4 starting.

(** A manager with the store [1] and, for the event [update], the
    handlers [1] and [2] in this order. *)
Definition live_two_handlers : Live.Manager :=
  Live.on "update" 2
    (Live.on "update" 1
       {| Live.mode := "explorer"; Live.store := Some (app_store 1);
          Live.callbacks := ∅; Live.sets := []; Live.trace := [] |}).

(** The same manager, with the handler [4] of [modeChanged] as well. *)
Definition live_listening : Live.Manager :=
  Live.on "modeChanged" 4 live_two_handlers.

(** Hosts in which no callee calls back. *)
Definition quiet_host : Live.Host := Live.external quiet_env.

(** A host whose function [1], when it is called, unsubscribes the
    handler [2] from [update] and subscribes the handler [3] instead. *)
Definition rewiring_host : Live.Host := fun _ c =>
  match c with
  | Apply 1 _ =>
      ([Live.CallOff "update" (Some 2); Live.CallOn "update" 3], Returns VUndefined)
  | _ => ([], Returns VUndefined)
  end.

(** A host every function [cb] of which, when it is called, subscribes
    the function [cb + 2] to [update]. *)
Definition growing_host : Live.Host := fun _ c =>
  match c with
  | Apply cb _ => ([Live.CallOn "update" (S (S cb))], Returns VUndefined)
  | _ => ([], Returns VUndefined)
  end.

End MoreScenarios.

Import DataView.
Import DataManager.
Import Scenarios.
Import DataViewRender.
Import ManagerSetup.
Import Editor.
Import MoreScenarios.

(** * Properties *)

(** ** The table callbacks *)

Section DataViewProperties.
Context {Row : Type}.

(** [data[index]] is defined exactly inside the bounds of the array. *)
Lemma row_at_is_Some (data : list Row) (i : Z) :
  is_Some (row_at data i) <-> (0 <= i < Z.of_nat (length data))%Z.
Proof.
  unfold row_at. destruct (Z.ltb_spec i 0) as [Hneg | Hpos].
  - split; [intros [x Hx]; discriminate | lia].
  - rewrite lookup_lt_is_Some. lia.
Qed.

(** C7. [isItemLoaded] is a function of its arguments and of
    [hasNextPage] alone (it has no access to any state), and its value is
    [!hasNextPage || (data[index] is defined)], where a row is defined
    exactly inside the bounds of [data]; so it is true at every index
    below [data.length] and, while a next page exists, false at index
    [data.length]. *)
Theorem isItemLoaded_spec (hasNext : bool) (data : list Row) :
  (forall i : Z,
     isItemLoaded hasNext data i
     = negb hasNext || bool_decide (0 <= i < Z.of_nat (length data))%Z) /\
  (forall i : Z,
     (0 <= i < Z.of_nat (length data))%Z -> isItemLoaded hasNext data i = true) /\
  (hasNext = true -> isItemLoaded hasNext data (Z.of_nat (length data)) = false).
Proof.
  assert (Hchar : forall i : Z,
     isItemLoaded hasNext data i
     = negb hasNext || bool_decide (0 <= i < Z.of_nat (length data))%Z).
  { intros i. unfold isItemLoaded. f_equal.
    apply bool_decide_ext, row_at_is_Some. }
  split; [exact Hchar | split].
  - intros i Hi. rewrite Hchar, bool_decide_eq_true_2 by exact Hi.
    apply orb_true_r.
  - intros ->. rewrite Hchar, bool_decide_eq_false_2 by lia. reflexivity.
Qed.

End DataViewProperties.

Lemma isItemLoaded_spec_witness :
  isItemLoaded true [10; 20; 30] 1 = true /\
  isItemLoaded true [10; 20; 30] 3 = false.
Proof.
  destruct (isItemLoaded_spec true [10; 20; 30]) as (_ & Hin & Hend).
  split.
  - apply Hin. simpl. lia.
  - apply Hend. reflexivity.
Defined.

(** [loadMore] returns without fetching in one state only: no next page
    and a load in flight. *)
Lemma loadMore_skips_iff (ds : DataStore) :
  loadMore ds = [] <-> hasNextPage ds = false /\ loading ds = true.
Proof.
  unfold loadMore. destruct (hasNextPage ds), (loading ds); simpl;
    split; intros H; try discriminate; try tauto; destruct H; discriminate.
Qed.

(** C1. What [loadMore] does where the guard [hasNextPage && !loading]
    would stop it: with a load in flight it calls [fetch] again, so a
    call on an idle store followed by a call while that fetch is in
    flight makes two [fetch] calls; at the end of the data, with no load
    in flight, it calls [fetch] as well. *)
Theorem loadMore_fetches_while_loading :
  loadMore {| hasNextPage := true; loading := true |} = [Fetch "scroll"] /\
  loadMore {| hasNextPage := true; loading := false |}
    ++ loadMore {| hasNextPage := true; loading := true |}
    = [Fetch "scroll"; Fetch "scroll"] /\
  loadMore {| hasNextPage := false; loading := false |} = [Fetch "scroll"].
Proof. repeat split. Qed.

(** ** Running methods *)

Ltac unfold_monad :=
  unfold mbind, mret, M_bind, M_ret, gets, modify, throw, async in *.

Lemma set_trace_id (st : State) : set_trace (trace st) st = st.
Proof. destruct st; reflexivity. Qed.

(** The lookup of a name that has a set returns that set and changes
    nothing. *)
Lemma getEventCallbacks_known (n : string) (r : SetRef) (st : State) :
  callbacks st !! n = Some r ->
  getEventCallbacks n st = (Normal r, st).
Proof.
  intros H. unfold getEventCallbacks. unfold_monad. rewrite H. reflexivity.
Qed.

(** The lookup of a name that has none allocates a new, empty set; the
    [callbacks] map is not touched. *)
Lemma getEventCallbacks_unknown (n : string) (st : State) :
  callbacks st !! n = None ->
  getEventCallbacks n st
  = (Normal (length (sets st)), set_sets (sets st ++ [[]]) st).
Proof.
  intros H. unfold getEventCallbacks. unfold_monad. rewrite H. reflexivity.
Qed.

Section Dispatch.
Variable env : Env.
Variable args : list Value.

Lemma dispatch_state (hs : list FnRef) (st : State) :
  (dispatch env args hs st).2 = set_trace (trace st ++ deliveries env (trace st) args hs) st.
Proof.
  revert st. induction hs as [| cb hs IH]; intros st; simpl.
  - rewrite app_nil_r. symmetry. apply set_trace_id.
  - unfold dispatch in *. simpl. unfold_monad. unfold call.
    destruct (env (trace st) (Apply cb args)) as [v | e]; simpl.
    + rewrite IH. simpl. rewrite <- app_assoc. reflexivity.
    + reflexivity.
Qed.

(** The calls made are a prefix of the handlers, in their order. *)
Lemma deliveries_prefix (hs : list FnRef) (h : list Call) :
  deliveries env h args hs `prefix_of` map (fun cb => Apply cb args) hs.
Proof.
  revert h. induction hs as [| cb hs IH]; intros h; simpl.
  - reflexivity.
  - apply prefix_cons.
    destruct (env h (Apply cb args)); [apply IH | apply prefix_nil].
Qed.

(** They are the calls of the first [k] handlers, for some [k]. *)
Lemma deliveries_take (hs : list FnRef) (h : list Call) :
  exists k, deliveries env h args hs = map (fun cb => Apply cb args) (take k hs).
Proof.
  revert h. induction hs as [| cb hs IH]; intros h; simpl.
  - exists 0. reflexivity.
  - destruct (env h (Apply cb args)).
    + destruct (IH (h ++ [Apply cb args])) as [k Hk].
      exists (S k). simpl. f_equal. exact Hk.
    + exists 1. destruct hs; reflexivity.
Qed.

(** When the loop ends normally every handler was called. *)
Lemma dispatch_normal (hs : list FnRef) (st : State) :
  (dispatch env args hs st).1 = Normal tt ->
  deliveries env (trace st) args hs = map (fun cb => Apply cb args) hs.
Proof.
  revert st. induction hs as [| cb hs IH]; intros st; simpl; [reflexivity |].
  unfold dispatch in *. simpl. unfold_monad. unfold call.
  destruct (env (trace st) (Apply cb args)) as [v | e]; simpl.
  - intros H. f_equal. apply (IH _ H).
  - discriminate.
Qed.

(** When the loop ends with an exception, it was thrown by a handler
    [cb]; the handlers before it returned, and those after it were not
    called. *)
Lemma dispatch_throw (hs : list FnRef) (st : State) (e : Exn) :
  (dispatch env args hs st).1 = Throw e ->
  exists pre cb post,
    hs = pre ++ cb :: post /\
    deliveries env (trace st) args hs = map (fun cb => Apply cb args) (pre ++ [cb]) /\
    env (trace st ++ map (fun cb => Apply cb args) pre) (Apply cb args) = Throws e.
Proof.
  revert st. induction hs as [| cb hs IH]; intros st; simpl; [discriminate |].
  unfold dispatch in *. simpl. unfold_monad. unfold call.
  destruct (env (trace st) (Apply cb args)) as [v | e'] eqn:Henv; simpl.
  - intros H. destruct (IH _ H) as (pre & cb' & post & -> & Hd & He).
    exists (cb :: pre), cb', post. simpl in *. repeat split.
    + f_equal. exact Hd.
    + rewrite <- app_assoc in He. exact He.
  - intros [= ->]. exists [], cb, hs. simpl. rewrite app_nil_r. auto.
Qed.

(** When no handler throws, the loop ends normally. *)
Lemma dispatch_no_throw (hs : list FnRef) (st : State) :
  (forall h cb, cb ∈ hs -> exists v, env h (Apply cb args) = Returns v) ->
  (dispatch env args hs st).1 = Normal tt.
Proof.
  revert st. induction hs as [| cb hs IH]; intros st Hok; simpl; [reflexivity |].
  unfold dispatch in *. simpl. unfold_monad. unfold call.
  destruct (Hok (trace st) cb) as [v ->]; [left |]. simpl.
  apply IH. intros h cb' Hin. apply Hok. right. exact Hin.
Qed.

(** [invoke] is the loop over the registered handlers, run after the
    lookup of the set. *)
Lemma invoke_unfold (n : string) (st : State) :
  invoke env n args st =
  let res := dispatch env args (handlers n st) (getEventCallbacks n st).2 in
  (Normal (match res.1 with
           | Normal _ => Fulfilled tt
           | Throw e => Rejected e
           end), res.2).
Proof.
  unfold invoke, handlers, dispatch.
  destruct (callbacks st !! n) as [r |] eqn:Hn.
  - unfold_monad. rewrite (getEventCallbacks_known _ _ _ Hn). simpl.
    unfold set_elements, gets.
    destruct (forEach _ _ st) as [[[] | e] st']; reflexivity.
  - unfold_monad. rewrite (getEventCallbacks_unknown _ _ Hn). simpl.
    unfold set_elements, gets. simpl.
    rewrite lookup_app_r, Nat.sub_diag by lia. reflexivity.
Qed.

(** The lookup leaves the trace alone. *)
Lemma getEventCallbacks_trace (n : string) (st : State) :
  trace (getEventCallbacks n st).2 = trace st.
Proof.
  unfold getEventCallbacks. unfold_monad.
  destruct (callbacks st !! n); reflexivity.
Qed.

(** The state after [invoke]: the calls to the handlers are added to the
    trace of the state that the lookup leaves. *)
Lemma invoke_state (n : string) (st : State) :
  (invoke env n args st).2
  = set_trace (trace st ++ deliveries env (trace st) args (handlers n st))
      (getEventCallbacks n st).2.
Proof.
  rewrite invoke_unfold. cbv zeta. simpl.
  rewrite dispatch_state, getEventCallbacks_trace. reflexivity.
Qed.

End Dispatch.

(** ** Event delivery *)

(** Registration order is the order of the set: [on(name, cb)] puts [cb]
    after the handlers that [name] has, unless it is one of them, and
    leaves the handlers of the other events alone. *)
Lemma on_handlers (n : string) (cb : FnRef) (st : State) :
  callbacks_wf st ->
  handlers n (on n cb st).2 = js_add cb (handlers n st) /\
  (forall n', n' <> n -> handlers n' (on n cb st).2 = handlers n' st).
Proof.
  intros [Hb Hi]. unfold on. unfold_monad. unfold handlers.
  destruct (callbacks st !! n) as [r |] eqn:Hn.
  - rewrite (getEventCallbacks_known _ _ _ Hn). unfold set_update. unfold_monad. simpl.
    rewrite lookup_insert_eq. split.
    + rewrite list_lookup_alter_eq.
      destruct (lookup_lt_is_Some_2 (sets st) r (Hb n r Hn)) as [x ->]. reflexivity.
    + intros n' Hne. rewrite lookup_insert_ne by congruence.
      destruct (callbacks st !! n') as [r' |] eqn:Hn'; [| reflexivity].
      rewrite list_lookup_alter_ne; [reflexivity |].
      intros <-. apply Hne. apply (Hi n' n r Hn' Hn).
  - rewrite (getEventCallbacks_unknown _ _ Hn). unfold set_update. unfold_monad. simpl.
    rewrite lookup_insert_eq. split.
    + rewrite list_lookup_alter_eq, lookup_app_r, Nat.sub_diag by lia. reflexivity.
    + intros n' Hne. rewrite lookup_insert_ne by congruence.
      destruct (callbacks st !! n') as [r' |] eqn:Hn'; [| reflexivity].
      assert (Hr' := Hb n' r' Hn').
      rewrite list_lookup_alter_ne by lia.
      rewrite lookup_app_l by exact Hr'. reflexivity.
Qed.

(** [off(name, cb)] takes [cb] out of the handlers of [name], and
    [off(name)] takes them all out. *)
Lemma off_handlers (n : string) (cb : option FnRef) (st : State) :
  callbacks_wf st ->
  handlers n (off n cb st).2
  = match cb with
    | Some f => js_delete f (handlers n st)
    | None => []
    end.
Proof.
  intros [Hb _]. unfold off. unfold_monad. unfold handlers.
  destruct (callbacks st !! n) as [r |] eqn:Hn.
  - rewrite (getEventCallbacks_known _ _ _ Hn).
    destruct (lookup_lt_is_Some_2 (sets st) r (Hb n r Hn)) as [x Hx].
    destruct cb as [f |]; unfold set_update; unfold_monad; simpl;
      rewrite Hn, list_lookup_alter_eq, Hx; reflexivity.
  - rewrite (getEventCallbacks_unknown _ _ Hn).
    destruct cb as [f |]; unfold set_update; unfold_monad; simpl;
      rewrite Hn; reflexivity.
Qed.

(** ** The action registry *)

Section MapLemmas.
Context {V : Type}.
Implicit Types (m : list (Value * V)) (k : Value) (v : V).

Lemma map_get_set_eq m k v : map_get k (map_set k v m) = Some v.
Proof.
  induction m as [| [k' v'] m IH]; simpl.
  - rewrite decide_True by reflexivity. reflexivity.
  - destruct (decide (k' = k)) as [-> | Hne]; simpl.
    + rewrite decide_True by reflexivity. reflexivity.
    + rewrite decide_False by exact Hne. exact IH.
Qed.


(** Setting a key that exists keeps the keys and their order. *)
Lemma map_set_keys_present m k v :
  is_Some (map_get k m) -> (map_set k v m).*1 = m.*1.
Proof.
  induction m as [| [k0 v0] m IH]; simpl.
  - intros [x Hx]. discriminate.
  - destruct (decide (k0 = k)) as [-> | Hk0]; simpl.
    + reflexivity.
    + intros H. f_equal. apply IH, H.
Qed.

(** Setting a new key appends it. *)
Lemma map_set_keys_absent m k v :
  map_get k m = None -> (map_set k v m).*1 = m.*1 ++ [k].
Proof.
  induction m as [| [k0 v0] m IH]; simpl.
  - reflexivity.
  - destruct (decide (k0 = k)) as [-> | Hk0]; simpl.
    + discriminate.
    + intros H. f_equal. apply IH, H.
Qed.

(** Writing back an entry of a map without repeated keys changes
    nothing. *)
Lemma map_set_same m k v :
  NoDup m.*1 -> (k, v) ∈ m -> map_set k v m = m.
Proof.
  induction m as [| [k0 v0] m IH]; simpl; intros Hnd Hin.
  - apply elem_of_nil in Hin. destruct Hin.
  - apply NoDup_cons in Hnd as [Hk0 Hnd].
    apply elem_of_cons in Hin as [[= <- <-] | Hin].
    + rewrite decide_True by reflexivity. reflexivity.
    + destruct (decide (k0 = k)) as [-> | Hne].
      * exfalso. apply Hk0. apply (list_elem_of_fmap_2 fst) in Hin. exact Hin.
      * f_equal. apply IH; assumption.
Qed.

End MapLemmas.

(** What [addAction] does once the id has passed the test. *)
Lemma addAction_run (env : Env) (a : Action) (cb : FnRef) (st : State) :
  truthy (action_id a) = true ->
  addAction env a cb st =
  let st1 := set_actions (map_set (action_id a) {| action := a; callback := cb |}
                            (actions st)) st in
  match store st with
  | None => (Throw TypeError, st1)
  | Some s =>
      let c := StoreAddActions (store_ref s) a in
      match env (trace st) c with
      | Returns _ => (Normal tt, set_trace (trace st ++ [c]) st1)
      | Throws e => (Throw e, set_trace (trace st ++ [c]) st1)
      end
  end.
Proof.
  intros Hid. unfold addAction. rewrite Hid. simpl. unfold_monad.
  unfold this_store, call. simpl.
  destruct (store st) as [s |]; [| reflexivity]. simpl.
  destruct (env (trace st) _); reflexivity.
Qed.

(** The entry written by [addAction] is there whatever the store does. *)
Lemma addAction_entry (env : Env) (a : Action) (cb : FnRef) (st : State) :
  truthy (action_id a) = true ->
  map_get (action_id a) (actions (addAction env a cb st).2)
  = Some {| action := a; callback := cb |}.
Proof.
  intros Hid. rewrite addAction_run by exact Hid. cbv zeta.
  destruct (store st) as [s |]; [destruct (env (trace st) _) |];
    simpl; apply map_get_set_eq.
Qed.




(** C8. [addAction] throws [Error("Action must provide a unique ID")]
    when the action has no id ([undefined], and any falsy id), and the
    manager is then exactly as before; after an [addAction(action, cb)]
    that returned, [getAction(action.id)] is [cb]. *)
Theorem addAction_requires_id (env : Env) (a : Action) (cb : FnRef) (st : State) :
  (action_id a = VUndefined ->
     addAction env a cb st = (Throw (Error "Action must provide a unique ID"), st)) /\
  (truthy (action_id a) = false ->
     addAction env a cb st = (Throw (Error "Action must provide a unique ID"), st)) /\
  (forall st', addAction env a cb st = (Normal tt, st') ->
     getAction (action_id a) st' = Some cb).
Proof.
  assert (Hfalsy : truthy (action_id a) = false ->
     addAction env a cb st = (Throw (Error "Action must provide a unique ID"), st)).
  { intros Hid. unfold addAction. rewrite Hid. reflexivity. }
  split; [intros Hid; apply Hfalsy; rewrite Hid; reflexivity |].
  split; [exact Hfalsy |].
  intros st' Hrun. destruct (truthy (action_id a)) eqn:Hid.
  - assert (Hentry := addAction_entry env a cb st Hid).
    rewrite Hrun in Hentry. simpl in Hentry. unfold getAction. rewrite Hentry. reflexivity.
  - rewrite Hfalsy in Hrun by reflexivity. discriminate.
Qed.

Lemma addAction_requires_id_witness :
  addAction quiet_env {| action_id := VUndefined; action_rest := 0 |} 5 (ready quiet_env)
  = (Throw (Error "Action must provide a unique ID"), ready quiet_env) /\
  getAction (VStr "x") (addAction quiet_env action_x1 5 (ready quiet_env)).2 = Some 5.
Proof.
  split.
  - apply (addAction_requires_id quiet_env
             {| action_id := VUndefined; action_rest := 0 |} 5 (ready quiet_env)).
    reflexivity.
  - apply (addAction_requires_id quiet_env action_x1 5 (ready quiet_env)).
    vm_compute. reflexivity.
Defined.

(** ** The instrument registry *)

(** C9. For a name found in the table of native instruments,
    [registerInstrument] logs a warning and returns: no exception, the
    initializer is not called and the manager (its instrument registry
    included) is unchanged.  For any other name the initializer is
    called exactly once, with the current store, and when it returns an
    instance that instance is stored under the name; when it throws,
    nothing is stored. *)
Theorem registerInstrument_spec (env : Env) (native : string -> bool)
    (name : string) (initializer : FnRef) (st : State) :
  let res := registerInstrument env native name initializer st in
  let c := Initialize initializer (store_ref <$> store st) in
  (native name = true ->
     res = (Normal VUndefined,
            set_trace (trace st ++
                       [ConsoleWarn ("Can't override native instrument " ++ name)%string])
              st) /\
     instruments res.2 = instruments st /\
     (forall f s, Initialize f s ∉ drop (length (trace st)) (trace res.2))) /\
  (native name = false ->
     (exists rest, trace res.2 = trace st ++ c :: rest /\
                   forall f s, Initialize f s ∉ rest) /\
     (forall v, env (trace st) c = Returns v ->
        instruments res.2 = <[name := v]> (instruments st)) /\
     (forall e, env (trace st) c = Throws e ->
        res.1 = Throw e /\ instruments res.2 = instruments st)).
Proof.
  intros res c. subst res. unfold registerInstrument. split; intros Hn; rewrite Hn.
  - unfold console_warn. simpl. split; [reflexivity |]. split; [reflexivity |].
    intros f s. rewrite drop_app_length.
    intros H%list_elem_of_In. destruct H as [H | []]. discriminate H.
  - unfold_monad. unfold call, this_store. simpl. fold c.
    destruct (env (trace st) c) as [v | e] eqn:Hc; simpl.
    + destruct (store st) as [s |] eqn:Hs; simpl.
      * destruct (env (trace st ++ [c]) _); simpl; rewrite <- app_assoc; simpl;
          (split; [eexists; split; [reflexivity |];
                   intros f s0 H%list_elem_of_In; destruct H as [H | []]; discriminate H |]);
          (split; [intros v' [= <-]; reflexivity | intros e' [=]]).
      * split; [exists []; split; [reflexivity | intros f s0; apply not_elem_of_nil] |].
        split; [intros v' [= <-]; reflexivity | intros e' [=]].
    + split; [exists []; split; [reflexivity | intros f s0; apply not_elem_of_nil] |].
      split; [intros v' [=] | intros e' [= <-]; auto].
Qed.

Lemma registerInstrument_spec_witness :
  instruments (registerInstrument instrument_env toolbar_instruments "columns" 3
                 (ready instrument_env)).2
  = instruments (ready instrument_env) /\
  instruments (registerInstrument instrument_env toolbar_instruments "my-button" 3
                 (ready instrument_env)).2
  = <["my-button" := VObj 7]> (instruments (ready instrument_env)).
Proof.
  split.
  - apply (registerInstrument_spec instrument_env toolbar_instruments "columns" 3
             (ready instrument_env)).
    reflexivity.
  - apply (registerInstrument_spec instrument_env toolbar_instruments "my-button" 3
             (ready instrument_env)); reflexivity.
Defined.

(** ** Mode *)

(** What [setMode] does when the store is there and its [setMode]
    returns. *)
Lemma setMode_run (env : Env) (m : string) (st : State) (s : Store) (v : Value) :
  store st = Some s ->
  env (trace st) (StoreSetMode (store_ref s) m) = Returns v ->
  setMode env m st =
  let st1 := set_trace (trace st ++ [StoreSetMode (store_ref s) m]) (set_mode m st) in
  (Normal (Fulfilled tt),
   if String.eqb m (mode st) then st1
   else (invoke env "modeChanged" [VStr m] st1).2).
Proof.
  intros Hs Hv. unfold setMode. unfold_monad. unfold this_store, call. simpl.
  rewrite Hs. simpl. rewrite Hv. simpl.
  destruct (String.eqb m (mode st)); simpl; [reflexivity |].
  rewrite invoke_unfold. reflexivity.
Qed.

(** ** Labeling *)

(** C6. With a store in which a task is selected: [startLabeling()]
    changes nothing and calls nothing when the editor shows a task with
    the same id.  Otherwise, when the mode is not [labelstream] and an
    editor exists whose task id differs from the id of the selected task,
    or the selected annotation is not [undefined], it makes exactly one
    call, [loadTask(task.id, annotationID)] on that editor, where
    [annotationID] is [annotation?.id ?? task.lastAnnotation?.id]: the id
    of the selected annotation when that id is neither [null] nor
    [undefined], and the id of the last annotation of the task when no
    annotation is selected or the id of the selected one is nullish.  In
    [labelstream] mode, or without an editor, it calls nothing. *)
Theorem startLabeling_spec (env : Env) (st : State) (s : Store) (t : Task) :
  store st = Some s ->
  taskStore_selected s = Obj t ->
  let res := startLabeling env st in
  let annotation := annotationStore_selected s in
  let identical :=
    exists l lt, lsf st = Some l /\ lsf_task l = Obj lt /\ task_id lt = task_id t in
  let annotationID :=
    coalesce (opt_field annotation_id annotation)
             (opt_field annotation_id (lastAnnotation t)) in
  (identical -> res = (Normal (Fulfilled tt), st)) /\
  (forall l,
     ~ identical ->
     lsf st = Some l ->
     mode st <> "labelstream" ->
     opt_field task_id (lsf_task l) <> task_id t \/ annotation <> Undef ->
     res.2 = set_trace (trace st ++ [LoadTask (lsf_ref l) (task_id t) annotationID]) st) /\
  (forall a,
     annotation = Obj a -> nullish (annotation_id a) = false ->
     annotationID = annotation_id a) /\
  ((forall a, annotation = Obj a -> nullish (annotation_id a) = true) ->
   annotationID = opt_field annotation_id (lastAnnotation t)) /\
  (~ identical -> mode st = "labelstream" \/ lsf st = None ->
     res = (Normal (Fulfilled tt), st)).
Proof.
  intros Hs Ht res annotation identical annotationID. subst res.
  unfold startLabeling. unfold_monad. unfold this_store. rewrite Hs. simpl.
  rewrite Ht. fold annotation.
  assert (Hsame : same_task (lsf st) (Obj t) = true <-> identical).
  { unfold same_task, identical, strict_eq.
    destruct (lsf st) as [l |].
    - destruct (lsf_task l) as [| | lt] eqn:Hlt.
      + split; [discriminate | intros (? & ? & [= <-] & ? & _); congruence].
      + split; [discriminate | intros (? & ? & [= <-] & ? & _); congruence].
      + rewrite bool_decide_eq_true. split.
        * intros Hid. exists l, lt. auto.
        * intros (? & ? & [= <-] & Hlt' & Hid). congruence.
    - split; [discriminate | intros (? & ? & [=] & _)]. }
  split; [| split; [| split; [| split]]].
  - intros Hid. apply Hsame in Hid. rewrite Hid. reflexivity.
  - intros l Hnot Hl Hmode Hwhy.
    destruct (same_task (lsf st) (Obj t)) eqn:Hst; [exfalso; apply Hnot, Hsame; reflexivity |].
    rewrite Hl.
    destruct (String.eqb_spec (mode st) "labelstream") as [| _]; [contradiction |].
    assert (Hguard : negb (strict_eq (opt_field task_id (lsf_task l))
                             (opt_field task_id (Obj t)))
                     || is_defined annotation = true).
    { destruct Hwhy as [Hdiff | Hdef].
      - unfold strict_eq. simpl. rewrite bool_decide_eq_false_2 by exact Hdiff. reflexivity.
      - destruct annotation; [contradiction | |]; apply orb_true_r. }
    simpl negb. rewrite andb_true_l, Hguard.
    fold annotationID. unfold call. simpl.
    destruct (env (trace st) _); reflexivity.
  - intros a Ha Hid. subst annotationID. rewrite Ha. simpl.
    unfold coalesce. rewrite Hid. reflexivity.
  - intros Hnull. subst annotationID.
    destruct annotation as [| | a]; simpl; try reflexivity.
    unfold coalesce. rewrite (Hnull a eq_refl). reflexivity.
  - intros Hnot Hwhy.
    destruct (same_task (lsf st) (Obj t)) eqn:Hst; [exfalso; apply Hnot, Hsame; reflexivity |].
    destruct Hwhy as [Hmode | Hl].
    + rewrite Hmode. simpl. destruct (lsf st); reflexivity.
    + rewrite Hl. reflexivity.
Qed.

Lemma startLabeling_spec_witness :
  startLabeling quiet_env (editing 12) = (Normal (Fulfilled tt), editing 12) /\
  (startLabeling quiet_env (editing 11)).2
  = set_trace (trace (editing 11) ++ [LoadTask 2 (VNum 12) (VNum 99)]) (editing 11).
Proof.
  split.
  - destruct (startLabeling_spec quiet_env (editing 12) labeling_store task_12
                eq_refl eq_refl) as (Hsame & _).
    apply Hsame. eexists _, _. repeat split.
  - destruct (startLabeling_spec quiet_env (editing 11) labeling_store task_12
                eq_refl eq_refl) as (_ & Hload & _).
    apply (Hload {| lsf_ref := 2;
                    lsf_task := Obj {| task_id := VNum 11; lastAnnotation := Undef |} |}).
    + intros (l & lt & Hl & Hlt & Hid). injection Hl as <-.
      injection Hlt as <-. discriminate Hid.
    + reflexivity.
    + discriminate.
    + left. discriminate.
Defined.

(** C6, as stated, fails.  Outside [labelstream] mode, with an editor
    that shows the task [11] and no task selected in the store (a
    different task, then), no [loadTask] is issued: the promise is
    rejected with a [TypeError] and nothing has been called.  And with
    the task [12] selected together with an annotation whose id is
    [null], the id passed to [loadTask] is not the id of the selected
    annotation but [99], the id of the last annotation of the task. *)
Lemma startLabeling_needs_a_selected_task :
  (mode editing_unselected = "explorer" /\
   (exists l lt, lsf editing_unselected = Some l /\ lsf_task l = Obj lt /\
                 task_id lt = VNum 11) /\
   (exists s, store editing_unselected = Some s /\ taskStore_selected s = Undef) /\
   startLabeling quiet_env editing_unselected
   = (Normal (Rejected TypeError), editing_unselected)) /\
  (exists s, store editing_null_annotation = Some s /\
             annotationStore_selected s = Obj {| annotation_id := VNull |}) /\
  (startLabeling quiet_env editing_null_annotation).2
  = set_trace (trace editing_null_annotation ++ [LoadTask 2 (VNum 12) (VNum 99)])
      editing_null_annotation.
Proof.
  split; [split; [reflexivity | split; [| split]] | split].
  - eexists _, _. repeat split.
  - eexists. split; reflexivity.
  - reflexivity.
  - eexists. split; reflexivity.
  - reflexivity.
Qed.

(** ** Life cycle *)

Lemma clear_all_run (refs : list SetRef) (st : State) :
  forEach (set_update (fun _ => [])) refs st
  = (Normal tt, set_sets (cleared refs (sets st)) st).
Proof.
  revert st. induction refs as [| r refs IH]; intros st; simpl.
  - destruct st; reflexivity.
  - unfold_monad. unfold set_update at 1. unfold_monad. rewrite IH. reflexivity.
Qed.

Lemma cleared_length (refs : list SetRef) (l : list (list FnRef)) :
  length (cleared refs l) = length l.
Proof.
  revert l. induction refs as [| r refs IH]; intros l; simpl; [reflexivity |].
  unfold cleared in *. simpl. rewrite IH. apply length_alter.
Qed.

(** A set that was empty or is cleared is empty afterwards. *)
Lemma cleared_lookup (refs : list SetRef) (l : list (list FnRef)) (r : SetRef) :
  r < length l ->
  r ∈ refs \/ l !! r = Some [] ->
  cleared refs l !! r = Some [].
Proof.
  revert l. induction refs as [| r0 refs IH]; intros l Hr Hin; simpl.
  - destruct Hin as [Hin | Hl]; [apply elem_of_nil in Hin; destruct Hin | exact Hl].
  - unfold cleared in *. simpl. apply IH; [rewrite length_alter; exact Hr |].
    destruct (decide (r0 = r)) as [-> | Hne].
    + right. rewrite list_lookup_alter_eq.
      destruct (lookup_lt_is_Some_2 l r Hr) as [x ->]. reflexivity.
    + rewrite list_lookup_alter_ne by exact Hne.
      destruct Hin as [Hin | Hl]; [| right; exact Hl].
      apply elem_of_cons in Hin as [-> | Hin]; [contradiction | left; exact Hin].
Qed.

(** The first part of [destroy], common to both values of its
    argument. *)
Lemma destroy_run (env : Env) (d : bool) (st : State) :
  exists t,
    t `prefix_of` destroy_calls st /\
    let st1 := set_trace (trace st ++ t) st in
    ((exists e, destroy env d st = (Throw e, st1)) \/
     (t = destroy_calls st /\
      destroy env d st =
      (Normal tt,
       if d then
         set_callbacks ∅ (set_sets (cleared (map_to_list (callbacks st)).*2 (sets st)) st1)
       else st1))).
Proof.
  unfold destroy, destroy_calls. unfold_monad. unfold call.
  destruct (store st) as [s |]; simpl.
  - destruct (store_has_destroy s); simpl.
    + destruct (env (trace st) (StoreDestroy (store_ref s))) as [v | e]; simpl.
      * destruct (env (trace st ++ [StoreDestroy (store_ref s)]) UnmountComponentAtNode)
          as [v' | e']; simpl.
        -- exists [StoreDestroy (store_ref s); UnmountComponentAtNode].
           split; [reflexivity |]. right. split; [reflexivity |].
           rewrite <- app_assoc. simpl.
           destruct d; [rewrite clear_all_run |]; reflexivity.
        -- exists [StoreDestroy (store_ref s); UnmountComponentAtNode].
           split; [reflexivity |]. left. exists e'. rewrite <- app_assoc. reflexivity.
      * exists [StoreDestroy (store_ref s)]. split; [eexists; reflexivity |].
        left. exists e. reflexivity.
    + destruct (env (trace st) UnmountComponentAtNode) as [v' | e']; simpl.
      * exists [UnmountComponentAtNode]. split; [reflexivity |]. right.
        split; [reflexivity |]. destruct d; [rewrite clear_all_run |]; reflexivity.
      * exists [UnmountComponentAtNode]. split; [reflexivity |]. left. eauto.
  - destruct (env (trace st) UnmountComponentAtNode) as [v' | e']; simpl.
    + exists [UnmountComponentAtNode]. split; [reflexivity |]. right.
      split; [reflexivity |]. destruct d; [rewrite clear_all_run |]; reflexivity.
    + exists [UnmountComponentAtNode]. split; [reflexivity |]. left. eauto.
Qed.

(** [destroy(false)] only adds to the trace. *)
Lemma destroy_false_frame (env : Env) (st : State) :
  (destroy env false st).2 = set_trace (trace (destroy env false st).2) st.
Proof.
  destruct (destroy_run env false st) as (t & _ & [[e ->] | [_ ->]]); reflexivity.
Qed.

(** Re-adding entries of a well-formed registry leaves it as it is and
    passes each action to the store, until the store throws. *)
Lemma reinstall_run (env : Env) (s : Store) (l : list (Value * ActionEntry))
    (st : State) :
  store st = Some s ->
  NoDup (actions st).*1 ->
  Forall (fun e => e ∈ actions st /\ e.1 = action_id (action e.2) /\ truthy e.1 = true) l ->
  let res := forEach (fun e => addAction env (action e.2) (callback e.2)) l st in
  res.2 = set_trace (trace res.2) st /\
  (res.1 = Normal tt -> trace res.2 = trace st ++ added s l).
Proof.
  revert st. induction l as [| [k [a cb]] l IH]; intros st Hs Hnd Hl; simpl.
  - split; [symmetry; apply set_trace_id | intros _; rewrite app_nil_r; reflexivity].
  - apply Forall_cons in Hl as [(Hin & Hk & Hid) Hl]. simpl in Hk, Hid. subst k.
    unfold_monad. rewrite addAction_run by exact Hid. cbv zeta. rewrite Hs.
    rewrite (map_set_same _ _ _ Hnd Hin).
    replace (set_actions (actions st) st) with st by (destruct st; reflexivity).
    destruct (env (trace st) _) as [v | e]; simpl.
    + set (st1 := set_trace (trace st ++ [StoreAddActions (store_ref s) a]) st).
      destruct (IH st1 Hs Hnd Hl) as [Hframe Htrace].
      split.
      * rewrite Hframe at 1. reflexivity.
      * intros Hok. rewrite (Htrace Hok). simpl. rewrite <- app_assoc. reflexivity.
    + split; [reflexivity | discriminate].
Qed.

Lemma installActions_run (env : Env) (s : Store) (st : State) :
  store st = Some s ->
  actions_wf st ->
  let res := installActions env st in
  res.2 = set_trace (trace res.2) st /\
  (res.1 = Normal tt -> trace res.2 = trace st ++ added s (actions st)).
Proof.
  intros Hs [Hnd Hwf]. unfold installActions. unfold_monad.
  apply reinstall_run; [exact Hs | exact Hnd |].
  apply Forall_forall. intros e He. split; [exact He |].
  rewrite Forall_forall in Hwf. apply Hwf, He.
Qed.

(** [initApp] calls [createApp] and returns a promise. *)
Lemma initApp_run (env : Env) (st : State) :
  exists p, initApp env st = (Normal p, set_trace (trace st ++ [CreateApp]) st).
Proof.
  unfold initApp, call. destruct (env (trace st) CreateApp); eauto.
Qed.

(** [addAction] does not touch the event bus. *)
Lemma addAction_bus (env : Env) (a : Action) (cb : FnRef) (st : State) :
  callbacks (addAction env a cb st).2 = callbacks st /\
  sets (addAction env a cb st).2 = sets st.
Proof.
  destruct (truthy (action_id a)) eqn:Hid.
  - rewrite addAction_run by exact Hid. cbv zeta.
    destruct (store st); [destruct (env (trace st) _) |]; split; reflexivity.
  - unfold addAction. rewrite Hid. split; reflexivity.
Qed.

Lemma installActions_bus (env : Env) (st : State) :
  callbacks (installActions env st).2 = callbacks st /\
  sets (installActions env st).2 = sets st.
Proof.
  unfold installActions. unfold_monad. generalize (actions st) as l.
  intros l. revert st. induction l as [| e l IH]; intros st; simpl.
  - split; reflexivity.
  - unfold_monad. destruct (addAction_bus env (action e.2) (callback e.2) st) as [Hc Hs].
    destruct (addAction env (action e.2) (callback e.2) st) as [[[] | ex] st1]; simpl in *.
    + destruct (IH st1) as [Hc1 Hs1]. split; congruence.
    + split; assumption.
Qed.

(** [installActions] only adds to the trace. *)
Lemma installActions_trace (env : Env) (st : State) :
  trace st `prefix_of` trace (installActions env st).2.
Proof.
  unfold installActions. unfold_monad. generalize (actions st) as l.
  intros l. revert st. induction l as [| e l IH]; intros st; simpl.
  - reflexivity.
  - unfold_monad.
    assert (Ha : trace st `prefix_of` trace (addAction env (action e.2) (callback e.2) st).2).
    { destruct (truthy (action_id (action e.2))) eqn:Hid.
      - rewrite addAction_run by exact Hid. cbv zeta.
        destruct (store st); [destruct (env (trace st) _) |]; simpl;
          try reflexivity; apply prefix_app_r; reflexivity.
      - unfold addAction. rewrite Hid. reflexivity. }
    destruct (addAction env (action e.2) (callback e.2) st) as [[[] | ex] st1]; simpl in *.
    + etransitivity; [exact Ha | apply IH].
    + exact Ha.
Qed.

(** [reload] does not touch the event bus. *)
Lemma reload_bus (env : Env) (st : State) :
  callbacks (reload env st).2 = callbacks st /\
  sets (reload env st).2 = sets st.
Proof.
  unfold reload. unfold_monad.
  destruct (destroy_run env false st) as (t & _ & [[e ->] | [_ ->]]);
    [split; reflexivity |].
  destruct (initApp_run env (set_trace (trace st ++ t) st)) as [p ->].
  apply (installActions_bus env (set_trace _ st)).
Qed.

(** A [reload] that returns has called [destroy(false)], [createApp] and
    [store.addActions] on every registered action, and the registry is
    as before. *)
Lemma reload_run (env : Env) (s : Store) (st : State) :
  store st = Some s ->
  actions_wf st ->
  (reload env st).1 = Normal tt ->
  (reload env st).2
  = set_trace (trace st ++ destroy_calls st ++ CreateApp :: added s (actions st)) st.
Proof.
  intros Hs Hwf. unfold reload. unfold_monad.
  destruct (destroy_run env false st) as (t & _ & [[e ->] | [-> ->]]); [discriminate |].
  destruct (initApp_run env (set_trace (trace st ++ destroy_calls st) st)) as [p ->].
  set (st2 := set_trace _ (set_trace _ st)).
  destruct (installActions_run env s st2 Hs Hwf) as [Hframe Htrace].
  intros Hok. rewrite Hframe, (Htrace Hok). subst st2. simpl.
  rewrite <- !app_assoc. reflexivity.
Qed.

(** The state after [initApp] resumes with the store [s]. *)
Lemma initApp_resume_state (env : Env) (s : Store) (st : State) :
  (initApp_resume env s st).2 = (invoke env "ready" [this] (set_store (Some s) st)).2.
Proof.
  unfold initApp_resume. unfold_monad. simpl.
  rewrite invoke_unfold. reflexivity.
Qed.

(** [hasHandler] tells whether the event has at least one handler. *)
Lemma hasHandler_value (env : Env) (n : string) (st : State) :
  (hasHandler n st).1 = Normal (bool_decide (0 < length (handlers n st))).
Proof.
  unfold hasHandler, handlers. unfold_monad.
  destruct (callbacks st !! n) as [r |] eqn:Hn.
  - rewrite (getEventCallbacks_known _ _ _ Hn). reflexivity.
  - rewrite (getEventCallbacks_unknown _ _ Hn). simpl.
    unfold set_elements, gets. simpl.
    rewrite lookup_app_r, Nat.sub_diag by lia. reflexivity.
Qed.

(** C4. What [reload()] does to a ready manager on the store [1] that
    has the action [x] registered: it calls [destroy(false)] and
    [createApp], and passes the action to [addActions] of the store [1],
    the one that it has just destroyed and that the manager still holds,
    [initApp] being suspended at its [await].  When [createApp] resolves
    to the store [2], that store becomes the store of the manager and no
    action is ever passed to it, although the action is still in the
    registry. *)
Theorem reload_installs_actions_into_destroyed_store :
  let reloaded := (reload quiet_env registered_x).2 in
  let resumed := (initApp_resume quiet_env (app_store 2) reloaded).2 in
  store registered_x = Some (app_store 1) /\
  getAction (VStr "x") registered_x = Some 10 /\
  (reload quiet_env registered_x).1 = Normal tt /\
  trace reloaded
  = trace registered_x ++
    [StoreDestroy 1; UnmountComponentAtNode; CreateApp; StoreAddActions 1 action_x1] /\
  store reloaded = Some (app_store 1) /\
  store resumed = Some (app_store 2) /\
  getAction (VStr "x") resumed = Some 10 /\
  trace resumed = trace reloaded /\
  (forall a, StoreAddActions 2 a ∉ trace resumed).
Proof.
  cbv zeta. do 8 (split; [vm_compute; reflexivity |]).
  intros a Hin. vm_compute in Hin. apply list_elem_of_In in Hin. simpl in Hin.
  repeat (destruct Hin as [Hin | Hin]; [discriminate Hin |]). exact Hin.
Qed.

(** ** The subscriptions across [destroy] and [reload] *)

(** X29. [destroy(true)], when it returns, leaves the [callbacks] map
    empty, so no event has a handler, and every set the map held is
    emptied; [destroy(false)] leaves the map and the sets as they were.
    [reload()] starts with [destroy(false)] and never touches the map or
    the sets, so that every event has after it the handlers it had
    before, and the calls of [destroy(false)] are the first that it
    makes.  A [reload()] that returns leaves the store of the manager
    and the registry as they were, and has passed every registered
    action to [addActions] of that store, in the order of the
    registry. *)
Theorem destroy_detaches_on_request (env : Env) (st : State) :
  ((destroy env true st).1 = Normal tt ->
     let st' := (destroy env true st).2 in
     callbacks st' = ∅ /\
     (forall n, handlers n st' = [] /\ (hasHandler n st').1 = Normal false) /\
     (forall n r, callbacks st !! n = Some r -> r < length (sets st) ->
        sets st' !! r = Some [])) /\
  (let st' := (destroy env false st).2 in
   callbacks st' = callbacks st /\ sets st' = sets st /\
   (forall n, handlers n st' = handlers n st)) /\
  (let st' := (reload env st).2 in
   callbacks st' = callbacks st /\ sets st' = sets st /\
   (forall n, handlers n st' = handlers n st) /\
   trace (destroy env false st).2 `prefix_of` trace st' /\
   (forall s, store st = Some s -> actions_wf st -> (reload env st).1 = Normal tt ->
      store st' = Some s /\
      actions st' = actions st /\
      trace st' = trace st ++ destroy_calls st ++ CreateApp :: added s (actions st))).
Proof.
  split; [| split].
  - intros Hok st'. subst st'.
    destruct (destroy_run env true st) as (t & _ & [[e He] | [-> He]]);
      rewrite He in *; [discriminate |]. simpl.
    split; [reflexivity |]. split.
    + intros n.
      assert (Hh : handlers n
                (set_callbacks ∅
                   (set_sets (cleared (map_to_list (callbacks st)).*2 (sets st))
                      (set_trace (trace st ++ destroy_calls st) st))) = []).
      { unfold handlers. simpl. rewrite lookup_empty. reflexivity. }
      split; [exact Hh |]. rewrite (hasHandler_value env), Hh. reflexivity.
    + intros n r Hn Hr. apply cleared_lookup; [exact Hr |]. left.
      apply list_elem_of_fmap. exists (n, r). split; [reflexivity |].
      apply elem_of_map_to_list. exact Hn.
  - cbv zeta. rewrite destroy_false_frame. simpl. auto.
  - cbv zeta. destruct (reload_bus env st) as [Hc Hs].
    assert (Hh : forall n, handlers n (reload env st).2 = handlers n st).
    { intros n. unfold handlers. rewrite Hc, Hs. reflexivity. }
    split; [exact Hc |]. split; [exact Hs |]. split; [exact Hh |]. split.
    + unfold reload. unfold_monad.
      destruct (destroy_run env false st) as (t & _ & [[e ->] | [_ ->]]); [reflexivity |].
      destruct (initApp_run env (set_trace (trace st ++ t) st)) as [p ->].
      etransitivity; [| apply installActions_trace]. simpl.
      apply prefix_app_r. reflexivity.
    + intros s Hs' Hwf Hok. rewrite (reload_run env s st Hs' Hwf Hok). auto.
Qed.

Lemma destroy_detaches_on_request_witness :
  callbacks (destroy quiet_env true configured).2 = ∅ /\
  handlers "ready" (reload quiet_env configured).2 = [5] /\
  trace (reload quiet_env configured).2
  = trace configured ++
    [StoreDestroy 1; UnmountComponentAtNode; CreateApp; StoreAddActions 1 action_x1].
Proof.
  destruct (destroy_detaches_on_request quiet_env configured)
    as (Htrue & _ & _ & _ & Hkeep & _ & Hactions).
  split; [| split].
  - apply Htrue. reflexivity.
  - rewrite Hkeep. reflexivity.
  - destruct (Hactions (app_store 1)) as (_ & _ & Htrace); [reflexivity | | reflexivity |].
    + split.
      * apply (NoDup_singleton (VStr "x")).
      * repeat constructor.
    + rewrite Htrace. reflexivity.
Defined.

(** ** Invariants of the reachable states *)

Ltac frame := repeat split; simpl; try reflexivity; try lia; auto.

Lemma getEventCallbacks_neutral (n : string) (st : State) :
  neutral st (getEventCallbacks n st).2.
Proof.
  unfold getEventCallbacks. unfold_monad.
  destruct (callbacks st !! n); simpl; [frame |].
  repeat split; simpl; [rewrite length_app; lia |].
  intros Hwf. apply Forall_app. split; [exact Hwf |].
  constructor; [apply NoDup_nil_2 | constructor].
Qed.

Lemma invoke_neutral (env : Env) (n : string) (args : list Value) (st : State) :
  neutral st (invoke env n args st).2.
Proof.
  rewrite invoke_state.
  destruct (getEventCallbacks_neutral n st) as [(Hc & Hl & Hn) Ha].
  repeat split; simpl; assumption.
Qed.

Lemma hasHandler_neutral (n : string) (st : State) :
  neutral st (hasHandler n st).2.
Proof.
  unfold hasHandler. unfold_monad.
  assert (H := getEventCallbacks_neutral n st).
  destruct (getEventCallbacks n st) as [[r | e] st1]; exact H.
Qed.

Lemma js_delete_NoDup (f : FnRef) (l : list FnRef) : NoDup l -> NoDup (js_delete f l).
Proof. apply NoDup_filter. Qed.

Lemma js_add_NoDup (f : FnRef) (l : list FnRef) : NoDup l -> NoDup (js_add f l).
Proof.
  intros Hl. unfold js_add. destruct (decide (f ∈ l)) as [Hin | Hout]; [exact Hl |].
  apply NoDup_app. split; [exact Hl |]. split; [| apply NoDup_singleton].
  intros x Hx Hf. apply list_elem_of_singleton in Hf. subst x. contradiction.
Qed.

Lemma off_neutral (n : string) (cb : option FnRef) (st : State) :
  neutral st (off n cb st).2.
Proof.
  unfold off. unfold_monad.
  destruct (getEventCallbacks_neutral n st) as [(Hc & Hl & Hn) Ha].
  destruct (getEventCallbacks n st) as [[r | e] st1]; simpl in *; [| frame].
  destruct cb as [f |]; unfold set_update; unfold_monad; simpl;
    (repeat split; simpl; [assumption | rewrite length_alter; assumption | | assumption]);
    intros Hwf; apply Forall_alter; [apply Hn, Hwf | | apply Hn, Hwf |].
  - intros x _. apply js_delete_NoDup.
  - intros x _ _. apply NoDup_nil_2.
Qed.

Lemma registerInstrument_neutral (env : Env) (native : string -> bool)
    (n : string) (i : FnRef) (st : State) :
  neutral st (registerInstrument env native n i st).2.
Proof.
  unfold registerInstrument. destruct (native n); [frame |].
  unfold_monad. unfold this_store, call. simpl.
  destruct (env (trace st) _); simpl; [| frame].
  destruct (store st); simpl; [destruct (env _ _) |]; frame.
Qed.

Lemma setMode_neutral (env : Env) (m : string) (st : State) :
  neutral st (setMode env m st).2.
Proof.
  unfold setMode. unfold_monad. unfold this_store, call. simpl.
  destruct (store st) as [s |]; simpl; [| frame].
  destruct (env (trace st) _); simpl; [| frame].
  destruct (negb (String.eqb m (mode st))); simpl; [| frame].
  set (st1 := set_trace _ _).
  assert (Hk := invoke_neutral env "modeChanged" [VStr m] st1).
  rewrite invoke_unfold in *. simpl in *. exact Hk.
Qed.

Lemma startLabeling_neutral (env : Env) (st : State) :
  neutral st (startLabeling env st).2.
Proof.
  unfold startLabeling. unfold_monad. unfold this_store, call. simpl.
  destruct (store st) as [s |]; simpl; [| frame].
  destruct (same_task _ _); simpl; [frame |].
  destruct (lsf st) as [l |]; simpl; [| frame].
  destruct (_ && _); simpl; [| frame].
  destruct (taskStore_selected s); simpl; try solve [frame].
  destruct (env (trace st) _); frame.
Qed.

Lemma initApp_resume_neutral (env : Env) (s : Store) (st : State) :
  neutral st (initApp_resume env s st).2.
Proof.
  rewrite initApp_resume_state.
  apply (invoke_neutral env "ready" [this] (set_store (Some s) st)).
Qed.

Lemma removeAction_keeps (env : Env) (id : Value) (st : State) :
  keeps st (removeAction env id st).2.
Proof.
  unfold removeAction. unfold_monad. unfold this_store, call. simpl.
  destruct (store st); simpl; [destruct (env _ _) |]; frame.
Qed.

Lemma addAction_keeps (env : Env) (a : Action) (cb : FnRef) (st : State) :
  keeps st (addAction env a cb st).2.
Proof.
  destruct (addAction_bus env a cb st) as [Hc Hs].
  unfold keeps, sets_wf. rewrite Hc, Hs. frame.
Qed.

Lemma installActions_keeps (env : Env) (st : State) :
  keeps st (installActions env st).2.
Proof.
  destruct (installActions_bus env st) as [Hc Hs].
  unfold keeps, sets_wf. rewrite Hc, Hs. frame.
Qed.

Lemma reload_keeps (env : Env) (st : State) :
  keeps st (reload env st).2.
Proof.
  destruct (reload_bus env st) as [Hc Hs].
  unfold keeps, sets_wf. rewrite Hc, Hs. frame.
Qed.

Lemma cleared_NoDup (refs : list SetRef) (l : list (list FnRef)) :
  Forall NoDup l -> Forall NoDup (cleared refs l).
Proof.
  revert l. induction refs as [| r refs IH]; intros l Hl; simpl; [exact Hl |].
  unfold cleared in *. simpl. apply IH, Forall_alter; [exact Hl |].
  intros x _ _. apply NoDup_nil_2.
Qed.

(** [destroy] keeps the map, or empties it along with its sets. *)
Lemma destroy_step (env : Env) (d : bool) (st : State) :
  actions (destroy env d st).2 = actions st /\
  (keeps st (destroy env d st).2 \/
   (callbacks (destroy env d st).2 = ∅ /\
    (sets_wf st -> sets_wf (destroy env d st).2))).
Proof.
  destruct (destroy_run env d st) as (t & _ & [[e ->] | [_ ->]]).
  - split; [reflexivity | left; frame].
  - destruct d; (split; [reflexivity |]); [right | left; frame].
    split; [reflexivity |]. apply cleared_NoDup.
Qed.

(** [on] stores, under the event name, the set it found there or a newly
    allocated one, with the callback added at the end unless the set has
    it already; no other set changes. *)
Lemma on_run (n : string) (cb : FnRef) (st : State) :
  on n cb st =
  match callbacks st !! n with
  | Some r =>
      (Normal tt,
       set_callbacks (<[n := r]> (callbacks st))
         (set_sets (alter (js_add cb) r (sets st)) st))
  | None =>
      (Normal tt,
       set_callbacks (<[n := length (sets st)]> (callbacks st))
         (set_sets (sets st ++ [[cb]]) st))
  end.
Proof.
  unfold on. unfold_monad.
  destruct (callbacks st !! n) as [r |] eqn:Hn.
  - rewrite (getEventCallbacks_known _ _ _ Hn). reflexivity.
  - rewrite (getEventCallbacks_unknown _ _ Hn). unfold set_update. unfold_monad.
    simpl.
    assert (Hs : alter (js_add cb) (length (sets st)) (sets st ++ [[]])
                 = sets st ++ [[cb]]).
    { rewrite alter_app_r_alt, Nat.sub_diag by lia. reflexivity. }
    rewrite Hs. reflexivity.
Qed.

Lemma bus_inv_keeps (ops : list HostOp) (op : HostOp) (st st' : State) :
  bus_inv ops st -> keeps st st' -> bus_inv (ops ++ [op]) st'.
Proof.
  intros ([Hb Hi] & Hs & Hk) (Hc & Hl & Hn). split; [split |]; [| | split].
  - intros n r. rewrite Hc. intros H. apply Hb in H. lia.
  - intros n1 n2 r. rewrite Hc. apply Hi.
  - apply Hn, Hs.
  - intros n. rewrite Hc. intros H. destruct (Hk n H) as [cb Hcb].
    exists cb. apply elem_of_app. left. exact Hcb.
Qed.

Lemma bus_inv_empty (ops : list HostOp) (st : State) :
  callbacks st = ∅ -> sets_wf st -> bus_inv ops st.
Proof.
  intros He Hs. split; [split |]; [| | split].
  - intros n r. rewrite He, lookup_empty. discriminate.
  - intros n1 n2 r. rewrite He, lookup_empty. discriminate.
  - exact Hs.
  - intros n. rewrite He, lookup_empty. intros [x Hx]. discriminate.
Qed.

Lemma bus_inv_on (ops : list HostOp) (n : string) (cb : FnRef) (st : State) :
  bus_inv ops st -> bus_inv (ops ++ [OpOn n cb]) (on n cb st).2.
Proof.
  intros ([Hb Hi] & Hs & Hk). rewrite on_run.
  assert (Hnew : exists cb', OpOn n cb' ∈ ops ++ [OpOn n cb]).
  { exists cb. apply elem_of_app. right. left. }
  assert (Hold : forall n', is_Some (callbacks st !! n') ->
                   exists cb', OpOn n' cb' ∈ ops ++ [OpOn n cb]).
  { intros n' H. destruct (Hk n' H) as [cb' Hcb'].
    exists cb'. apply elem_of_app. left. exact Hcb'. }
  destruct (callbacks st !! n) as [r |] eqn:Hn; simpl.
  - rewrite (insert_id _ _ _ Hn). split; [split |]; [| | split]; simpl.
    + intros n' r' H. rewrite length_alter. apply (Hb n' r' H).
    + exact Hi.
    + apply Forall_alter; [exact Hs |]. intros x _. apply js_add_NoDup.
    + exact Hold.
  - split; [split |]; [| | split]; simpl.
    + intros n' r'. rewrite length_app. simpl.
      destruct (decide (n = n')) as [<- | Hne].
      * rewrite lookup_insert_eq. intros [= <-]. lia.
      * rewrite lookup_insert_ne by exact Hne. intros H. apply Hb in H. lia.
    + intros n1 n2 r.
      destruct (decide (n = n1)) as [<- | Hne1]; destruct (decide (n = n2)) as [<- | Hne2];
        rewrite ?lookup_insert_eq, ?lookup_insert_ne by assumption.
      * reflexivity.
      * intros [= <-] H. apply Hb in H. lia.
      * intros H [= <-]. apply Hb in H. lia.
      * apply Hi.
    + apply Forall_app. split; [exact Hs |].
      constructor; [apply NoDup_singleton | constructor].
    + intros n'. destruct (decide (n = n')) as [<- | Hne].
      * intros _. exact Hnew.
      * rewrite lookup_insert_ne by exact Hne. apply Hold.
Qed.

(** Every operation preserves the invariant of the bus. *)
Lemma bus_inv_step (env : Env) (native : string -> bool) (ops : list HostOp)
    (op : HostOp) (st : State) :
  bus_inv ops st -> bus_inv (ops ++ [op]) (run_op env native op st).
Proof.
  intros Hinv. destruct op; simpl.
  - apply bus_inv_on, Hinv.
  - apply (bus_inv_keeps _ _ st); [exact Hinv | apply off_neutral].
  - apply (bus_inv_keeps _ _ st); [exact Hinv | apply hasHandler_neutral].
  - apply (bus_inv_keeps _ _ st); [exact Hinv | apply invoke_neutral].
  - apply (bus_inv_keeps _ _ st); [exact Hinv | apply addAction_keeps].
  - apply (bus_inv_keeps _ _ st); [exact Hinv | apply removeAction_keeps].
  - apply (bus_inv_keeps _ _ st); [exact Hinv | apply installActions_keeps].
  - apply (bus_inv_keeps _ _ st); [exact Hinv | apply registerInstrument_neutral].
  - apply (bus_inv_keeps _ _ st); [exact Hinv | apply setMode_neutral].
  - apply (bus_inv_keeps _ _ st); [exact Hinv | apply startLabeling_neutral].
  - destruct (destroy_step env detachCallbacks st) as [_ [Hk | [He Hs]]].
    + apply (bus_inv_keeps _ _ st); [exact Hinv | exact Hk].
    + apply bus_inv_empty; [exact He | apply Hs, Hinv].
  - apply (bus_inv_keeps _ _ st); [exact Hinv | apply reload_keeps].
  - apply (bus_inv_keeps _ _ st); [exact Hinv | apply initApp_resume_neutral].
Qed.

Lemma bus_inv_run (env : Env) (native : string -> bool) (ops done : list HostOp)
    (st : State) :
  bus_inv done st -> bus_inv (done ++ ops) (run_ops env native ops st).
Proof.
  revert done st. induction ops as [| op ops IH]; intros done st Hinv; simpl.
  - rewrite app_nil_r. exact Hinv.
  - replace (done ++ op :: ops) with ((done ++ [op]) ++ ops)
      by (rewrite <- app_assoc; reflexivity).
    apply IH, bus_inv_step, Hinv.
Qed.

(** The invariant holds in every state that a constructed manager
    reaches. *)
Lemma bus_inv_reachable (env : Env) (native : string -> bool)
    (config_mode : option string) (prepared : gmap string Value)
    (ops : list HostOp) :
  bus_inv ops (run_ops env native ops (constructor env config_mode prepared)).
Proof.
  apply (bus_inv_run env native ops []). unfold constructor.
  destruct (initApp_run env (initial config_mode prepared)) as [p ->].
  apply bus_inv_empty; [reflexivity | constructor].
Qed.

(** In a reachable state the list that stands for the set of an event
    has no repetition. *)
Lemma handlers_NoDup_reachable (env : Env) (native : string -> bool)
    (config_mode : option string) (prepared : gmap string Value)
    (ops : list HostOp) (n : string) :
  NoDup (handlers n (run_ops env native ops (constructor env config_mode prepared))).
Proof.
  destruct (bus_inv_reachable env native config_mode prepared ops) as (_ & Hs & _).
  unfold handlers. destruct (callbacks _ !! n) as [r |]; [| apply NoDup_nil_2].
  destruct (sets _ !! r) as [l |] eqn:Hl; [| apply NoDup_nil_2].
  apply (Forall_lookup_1 _ _ _ _ Hs Hl).
Qed.

(** The registry keeps its invariant. *)

Section RegistryInvariant.
Context {V : Type}.
Implicit Types (m : list (Value * V)) (k : Value) (v : V).

Lemma map_get_None_keys m k : map_get k m = None <-> k ∉ m.*1.
Proof.
  induction m as [| [k0 v0] m IH]; simpl.
  - split; [intros _; apply not_elem_of_nil | reflexivity].
  - rewrite not_elem_of_cons. destruct (decide (k0 = k)) as [-> | Hk0].
    + split; [discriminate | intros [Hk _]; destruct Hk; reflexivity].
    + rewrite IH. split; [intros Hk; split; [congruence | exact Hk] | intros [_ Hk]; exact Hk].
Qed.

Lemma map_set_NoDup m k v : NoDup m.*1 -> NoDup (map_set k v m).*1.
Proof.
  intros Hnd. destruct (map_get k m) as [x |] eqn:Hk.
  - rewrite map_set_keys_present by eauto. exact Hnd.
  - rewrite map_set_keys_absent by exact Hk.
    apply NoDup_app. split; [exact Hnd |]. split; [| apply NoDup_singleton].
    intros x Hx Hin. apply list_elem_of_singleton in Hin. subst x.
    apply map_get_None_keys in Hk. contradiction.
Qed.

Lemma map_set_Forall (P : Value * V -> Prop) m k v :
  Forall P m -> P (k, v) -> Forall P (map_set k v m).
Proof.
  intros Hm Hkv. induction Hm as [| [k0 v0] m H0 Hm IH]; simpl.
  - repeat constructor. exact Hkv.
  - destruct (decide (k0 = k)); constructor; assumption.
Qed.

Lemma map_delete_keys m k x : x ∈ (map_delete k m).*1 -> x ∈ m.*1.
Proof.
  induction m as [| [k0 v0] m IH]; simpl; [intros H; exact H |].
  destruct (decide (k0 = k)); simpl.
  - intros H. right. exact H.
  - rewrite !elem_of_cons. intros [-> | H]; [left; reflexivity | right; apply IH, H].
Qed.

Lemma map_delete_NoDup m k : NoDup m.*1 -> NoDup (map_delete k m).*1.
Proof.
  induction m as [| [k0 v0] m IH]; simpl; intros Hnd; [exact Hnd |].
  apply NoDup_cons in Hnd as [Hk0 Hnd].
  destruct (decide (k0 = k)); simpl; [exact Hnd |].
  apply NoDup_cons. split; [| apply IH, Hnd].
  intros Hin. apply Hk0. apply (map_delete_keys _ _ _ Hin).
Qed.

Lemma map_delete_Forall (P : Value * V -> Prop) m k :
  Forall P m -> Forall P (map_delete k m).
Proof.
  intros Hm. induction Hm as [| [k0 v0] m H0 Hm IH]; simpl; [constructor |].
  destruct (decide (k0 = k)); [exact Hm | constructor; assumption].
Qed.

End RegistryInvariant.

Lemma addAction_actions_wf (env : Env) (a : Action) (cb : FnRef) (st : State) :
  actions_wf st -> actions_wf (addAction env a cb st).2.
Proof.
  intros [Hnd Hwf]. destruct (truthy (action_id a)) eqn:Hid.
  - assert (Hnew : actions_wf
              (set_actions (map_set (action_id a) {| action := a; callback := cb |}
                              (actions st)) st)).
    { split; simpl; [apply map_set_NoDup, Hnd |].
      apply map_set_Forall; [exact Hwf | split; [reflexivity | exact Hid]]. }
    rewrite addAction_run by exact Hid. cbv zeta.
    destruct (store st); [destruct (env (trace st) _) |]; exact Hnew.
  - unfold addAction. rewrite Hid. split; assumption.
Qed.

Lemma removeAction_actions_wf (env : Env) (id : Value) (st : State) :
  actions_wf st -> actions_wf (removeAction env id st).2.
Proof.
  intros [Hnd Hwf].
  assert (Hnew : actions_wf (set_actions (map_delete id (actions st)) st)).
  { split; simpl; [apply map_delete_NoDup, Hnd | apply map_delete_Forall, Hwf]. }
  unfold removeAction. unfold_monad. unfold this_store, call. simpl.
  destruct (store st); simpl; [destruct (env _ _) |]; exact Hnew.
Qed.

Lemma installActions_actions_wf (env : Env) (st : State) :
  actions_wf st -> actions_wf (installActions env st).2.
Proof.
  unfold installActions. unfold_monad. generalize (actions st) as l.
  intros l. revert st. induction l as [| e l IH]; intros st Hwf; simpl.
  - exact Hwf.
  - unfold_monad.
    assert (Ha := addAction_actions_wf env (action e.2) (callback e.2) st Hwf).
    destruct (addAction env (action e.2) (callback e.2) st) as [[[] | ex] st1]; simpl in *.
    + apply IH, Ha.
    + exact Ha.
Qed.

Lemma reload_actions_wf (env : Env) (st : State) :
  actions_wf st -> actions_wf (reload env st).2.
Proof.
  intros Hwf. unfold reload. unfold_monad.
  destruct (destroy_run env false st) as (t & _ & [[e ->] | [_ ->]]); [exact Hwf |].
  destruct (initApp_run env (set_trace (trace st ++ t) st)) as [p ->].
  apply (installActions_actions_wf env (set_trace _ st)). exact Hwf.
Qed.

(** Every operation preserves the invariant of the registry. *)
Lemma actions_wf_step (env : Env) (native : string -> bool) (op : HostOp)
    (st : State) :
  actions_wf st -> actions_wf (run_op env native op st).
Proof.
  intros Hwf.
  assert (Hsame : forall st', actions st' = actions st -> actions_wf st').
  { intros st' Heq. unfold actions_wf. rewrite Heq. exact Hwf. }
  destruct op; simpl.
  - apply Hsame. rewrite on_run. destruct (callbacks st !! eventName); reflexivity.
  - apply Hsame, off_neutral.
  - apply Hsame, hasHandler_neutral.
  - apply Hsame, invoke_neutral.
  - apply addAction_actions_wf, Hwf.
  - apply removeAction_actions_wf, Hwf.
  - apply installActions_actions_wf, Hwf.
  - apply Hsame, registerInstrument_neutral.
  - apply Hsame, setMode_neutral.
  - apply Hsame, startLabeling_neutral.
  - apply Hsame, destroy_step.
  - apply reload_actions_wf, Hwf.
  - apply Hsame, initApp_resume_neutral.
Qed.

(** In every state that a constructed manager reaches, the keys of the
    registry are distinct and each is the id of its action. *)
Lemma actions_wf_reachable (env : Env) (native : string -> bool)
    (config_mode : option string) (prepared : gmap string Value)
    (ops : list HostOp) :
  actions_wf (run_ops env native ops (constructor env config_mode prepared)).
Proof.
  assert (Hrun : forall st, actions_wf st -> actions_wf (run_ops env native ops st)).
  { induction ops as [| op ops IH]; intros st Hwf; simpl; [exact Hwf |].
    apply IH, actions_wf_step, Hwf. }
  apply Hrun. unfold constructor.
  destruct (initApp_run env (initial config_mode prepared)) as [p ->].
  split; simpl; constructor.
Qed.

(** ** Events that were never subscribed to *)

(** C10. In every state that a constructed manager reaches by operations
    among which [on] was never called with [name]: the [callbacks] map
    has no set for [name]; [hasHandler(name)] is false; [invoke(name,
    args)] is fulfilled without calling any handler (the trace is
    unchanged); [off(name, cb)] and [off(name)] return without throwing.
    The only effect of each of these calls is the allocation of an empty
    set that the map does not refer to: the map is unchanged and every
    event has the handlers it had. *)
Theorem unknown_event_is_inert (env : Env) (native : string -> bool)
    (config_mode : option string) (prepared : gmap string Value)
    (ops : list HostOp) (name : string) :
  (forall cb, OpOn name cb ∉ ops) ->
  let st := run_ops env native ops (constructor env config_mode prepared) in
  let st' := set_sets (sets st ++ [[]]) st in
  callbacks st !! name = None /\
  hasHandler name st = (Normal false, st') /\
  (forall args, invoke env name args st = (Normal (Fulfilled tt), st')) /\
  (forall cb : option FnRef, off name cb st = (Normal tt, st')) /\
  callbacks st' = callbacks st /\
  trace st' = trace st /\
  (forall n, handlers n st' = handlers n st) /\
  (forall n, callbacks st' !! n <> Some (length (sets st))).
Proof.
  intros Hnever st st'.
  destruct (bus_inv_reachable env native config_mode prepared ops) as ([Hb _] & _ & Hk).
  fold st in Hb, Hk.
  assert (Hn : callbacks st !! name = None).
  { destruct (callbacks st !! name) as [r |] eqn:Hn; [| reflexivity].
    destruct (Hk name) as [cb Hcb]; [rewrite Hn; eauto |].
    destruct (Hnever cb Hcb). }
  assert (Hh : handlers name st = []).
  { unfold handlers. rewrite Hn. reflexivity. }
  split; [exact Hn |]. split; [| split; [| split; [| split; [| split; [| split]]]]].
  - unfold hasHandler. unfold_monad. rewrite (getEventCallbacks_unknown _ _ Hn).
    unfold set_elements, gets. simpl.
    rewrite lookup_app_r, Nat.sub_diag by lia. reflexivity.
  - intros args. rewrite invoke_unfold, Hh, (getEventCallbacks_unknown _ _ Hn).
    reflexivity.
  - intros cb. unfold off. unfold_monad. rewrite (getEventCallbacks_unknown _ _ Hn).
    destruct cb as [f |]; unfold set_update; unfold_monad; simpl;
      rewrite alter_app_r_alt, Nat.sub_diag by lia; reflexivity.
  - reflexivity.
  - reflexivity.
  - intros n. unfold handlers. simpl.
    destruct (callbacks st !! n) as [r |] eqn:Hr; [| reflexivity].
    rewrite lookup_app_l by (apply (Hb n r Hr)). reflexivity.
  - intros n Hr. simpl in Hr. apply Hb in Hr. lia.
Qed.

Lemma unknown_event_is_inert_witness :
  (hasHandler "update"
     (run_ops quiet_env toolbar_instruments session (constructor quiet_env None ∅))).1
  = Normal false.
Proof.
  destruct (unknown_event_is_inert quiet_env toolbar_instruments None ∅ session "update")
    as (_ & Hhas & _).
  - intros cb Hin. apply list_elem_of_In in Hin. simpl in Hin.
    repeat (destruct Hin as [Hin | Hin]; [discriminate Hin |]). exact Hin.
  - rewrite Hhas. reflexivity.
Defined.

(** * The event bus with callees that call back *)

(** The properties of [invoke] and [setMode] in the model of module
    [Live], in which a handler, or the store, may call the methods of the
    manager while it runs. *)

Section LiveBus.
Import Live.

Lemma live_set_trace_id (st : Manager) : set_trace (trace st) st = st.
Proof. destruct st; reflexivity. Qed.

Lemma live_set_trace_twice (t t' : list Call) (st : Manager) :
  set_trace t' (set_trace t st) = set_trace t' st.
Proof. reflexivity. Qed.

(** An external call whose callee does not call back: the call is
    recorded and nothing else changes. *)
Lemma exec_external_quiet (host : Host) (fuel : nat) (c : Call) (st : Manager) :
  quiet host c ->
  exec host (S fuel) (External c) st
  = Some (match reply host (trace st) c with
          | Returns _ => Normal Undefined
          | Throws e => Throw e
          end, set_trace (trace st ++ [c]) st).
Proof.
  intros Hq. simpl. unfold reply. specialize (Hq (trace st)).
  destruct (host (trace st) c) as [calls r]. simpl in *. subst calls.
  reflexivity.
Qed.

Lemma drop_cons_inv {A} (l : list A) (i : nat) (x : A) (rest : list A) :
  drop i l = x :: rest -> l !! i = Some x /\ drop (S i) l = rest.
Proof.
  intros H. split.
  - rewrite <- (Nat.add_0_r i), <- lookup_drop, H. reflexivity.
  - change (S i) with (1 + i). rewrite Nat.add_comm, <- drop_drop, H. reflexivity.
Qed.

Lemma drop_nil_inv {A} (l : list A) (i : nat) :
  drop i l = [] -> l !! i = None.
Proof.
  intros H. apply lookup_ge_None_2.
  assert (Hl : length (drop i l) = 0) by (rewrite H; reflexivity).
  rewrite length_drop in Hl. lia.
Qed.

(** [forEach] over handlers that do not call back, from the entry
    [index] on. *)
Lemma forEach_quiet (host : Host) (events : SetRef) (args : list Value)
    (es : list (option FnRef)) :
  forall (rest : list (option FnRef)) (index : nat) (st : Manager) (fuel : nat),
    default [] (sets st !! events) = es ->
    drop index es = rest ->
    (forall cb, cb ∈ elements rest -> quiet host (Apply cb args)) ->
    length rest < fuel ->
    exec host fuel (ForEach events args index) st
    = Some (ending (reply host) (trace st) args (elements rest),
            set_trace (trace st ++ deliveries (reply host) (trace st) args (elements rest)) st).
Proof.
  induction rest as [| e rest IH]; intros index st fuel Hes Hdrop Hq Hfuel.
  - destruct fuel as [| fuel]; [simpl in Hfuel; lia |].
    simpl. rewrite Hes, (drop_nil_inv _ _ Hdrop), app_nil_r, live_set_trace_id.
    reflexivity.
  - destruct fuel as [| fuel]; [simpl in Hfuel; lia |].
    destruct (drop_cons_inv _ _ _ _ Hdrop) as [Hlook Hrest].
    simpl in Hfuel.
    cbn [exec]. rewrite Hes, Hlook.
    destruct e as [cb |].
    + destruct fuel as [| fuel]; [lia |].
      rewrite exec_external_quiet by (apply Hq; left).
      change (elements (Some cb :: rest)) with (cb :: elements rest).
      cbn [ending deliveries].
      destruct (reply host (trace st) (Apply cb args)) as [v | e'].
      * rewrite (IH (S index) _ (S fuel)); [| exact Hes | exact Hrest | | lia].
        -- simpl. rewrite <- app_assoc. reflexivity.
        -- intros cb' Hin. apply Hq. right. exact Hin.
      * reflexivity.
    + change (elements (None :: rest)) with (elements rest).
      apply IH; [exact Hes | exact Hrest | exact Hq | lia].
Qed.



(** [invoke] when the handlers of the event do not call back. *)
Lemma invoke_quiet (host : Host) (n : string) (args : list Value) (st : Manager)
    (fuel : nat) :
  (forall cb, cb ∈ handlers n st -> quiet host (Apply cb args)) ->
  entries n st + 1 < fuel ->
  invoke host fuel n args st
  = Some (settle (ending (reply host) (trace st) args (handlers n st)),
          set_trace (trace st ++ deliveries (reply host) (trace st) args (handlers n st))
            (getEventCallbacks n st).2).
Proof.
  intros Hq Hfuel. destruct fuel as [| fuel]; [lia |].
  unfold invoke. cbn [exec]. unfold handlers, entries, getEventCallbacks in *.
  destruct (callbacks st !! n) as [r |] eqn:Hn.
  - rewrite (forEach_quiet host r args _ (default [] (sets st !! r)) 0 st fuel
               eq_refl eq_refl);
      [reflexivity | exact Hq | lia].
  - simpl.
    rewrite (forEach_quiet host (length (sets st)) args [] [] 0 _ fuel);
      [reflexivity | | reflexivity | intros cb Hin; inversion Hin | simpl; lia].
    simpl. rewrite lookup_app_r, Nat.sub_diag by lia. reflexivity.
Qed.

(** Handlers that all return. *)
Lemma deliveries_all_return (env : Env) (args : list Value) (hs : list FnRef) :
  forall h,
    (forall h' cb, cb ∈ hs -> exists v, env h' (Apply cb args) = Returns v) ->
    deliveries env h args hs = applied args hs /\
    ending env h args hs = Normal Undefined.
Proof.
  induction hs as [| cb hs IH]; intros h Hok; simpl; [split; reflexivity |].
  destruct (Hok h cb) as [v ->]; [left |].
  destruct (IH (h ++ [Apply cb args])) as [Hd He].
  { intros h' cb' Hin. apply Hok. right. exact Hin. }
  split; [f_equal; exact Hd | exact He].
Qed.






(** The set is iterated as it is at each step: when the handler [1]
    unsubscribes the handler [2] and subscribes the handler [3] while
    it runs, [invoke] calls [1] and [3], and not [2], although [2] was
    registered when the call was made and [3] was not. *)
Lemma invoke_iterates_the_live_set :
  handlers "update" live_two_handlers = [1; 2] /\
  exists st',
    invoke rewiring_host 5 "update" [VNum 7] live_two_handlers
    = Some (Normal (Settled (Fulfilled tt)), st') /\
    trace st' = [Apply 1 [VNum 7]; Apply 3 [VNum 7]] /\
    handlers "update" st' = [1; 3].
Proof.
  split; [reflexivity |]. eexists. split; [vm_compute; reflexivity |].
  split; reflexivity.
Qed.


(** What a call of a function does in the growing host. *)
Lemma external_growing (fuel : nat) (cb : FnRef) (args : list Value)
    (st : Manager) (c : Completion Result) (st' : Manager) :
  exec growing_host fuel (External (Apply cb args)) st = Some (c, st') ->
  c = Normal Undefined /\
  st' = on "update" (S (S cb)) (set_trace (trace st ++ [Apply cb args]) st).
Proof.
  destruct fuel as [| [| fuel]]; [discriminate | discriminate |].
  intros [= <- <-]. split; reflexivity.
Qed.

(** A handler that keeps subscribing new handlers to the event that it
    handles keeps [invoke] from ending: whatever the fuel, the run needs
    more. *)
Lemma forEach_growing (args : list Value) :
  forall (fuel index : nat) (st : Manager),
    callbacks st !! "update" = Some 0 ->
    sets st !! 0 = Some (Some <$> seq 1 (index + 2)) ->
    exec growing_host fuel (ForEach 0 args index) st = None.
Proof.
  induction fuel as [| fuel IH]; intros index st Hc Hs; [reflexivity |].
  cbn [exec]. rewrite Hs. simpl default.
  rewrite list_lookup_fmap, lookup_seq_lt by lia. simpl.
  destruct (exec growing_host fuel (External (Apply (S index) args)) st)
    as [[c st'] |] eqn:He; [| reflexivity].
  apply external_growing in He as [-> ->].
  apply IH.
  - unfold on, getEventCallbacks. simpl. rewrite Hc. simpl.
    apply lookup_insert_eq.
  - unfold on, getEventCallbacks. simpl. rewrite Hc. simpl.
    rewrite list_lookup_alter_eq, Hs.
    change (Some (js_add (S (S (S index))) (Some <$> seq 1 (index + 2)))
            = Some (Some <$> seq 1 (S (index + 2)))).
    f_equal. rewrite seq_S, fmap_app. unfold js_add. rewrite decide_False.
    + replace (1 + (index + 2)) with (S (S (S index))) by lia. reflexivity.
    + intros Hin. apply list_elem_of_fmap in Hin as (x & [= <-] & Hx).
      apply elem_of_seq in Hx. lia.
Qed.

(** So does [invoke], with the handlers [1] and [2] to start with. *)
Lemma invoke_may_not_end (fuel : nat) :
  invoke growing_host fuel "update" [VNum 7] live_two_handlers = None.
Proof.
  destruct fuel as [| fuel]; [reflexivity |].
  unfold invoke.
  change (exec growing_host (S fuel) (Method (CallInvoke "update" [VNum 7]))
            live_two_handlers)
    with (match exec growing_host fuel (ForEach 0 [VNum 7] 0) live_two_handlers with
          | Some (c, st') => Some (settle c, st')
          | None => None
          end).
  rewrite (forEach_growing [VNum 7] fuel 0 live_two_handlers); reflexivity.
Qed.
(** [setMode] up to the event: the mode is assigned, then the store is
    told, whether the mode has changed or not. *)
Lemma setMode_unfold (host : Host) (fuel : nat) (m : string) (st : Manager) (s : Store) :
  store st = Some s ->
  quiet host (StoreSetMode (store_ref s) m) ->
  setMode host (S (S fuel)) m st
  = let c := StoreSetMode (store_ref s) m in
    let st1 := set_trace (trace st ++ [c]) (set_mode m st) in
    match reply host (trace st) c with
    | Throws e => Some (Normal (Settled (Rejected e)), st1)
    | Returns _ =>
        if String.eqb m (mode st) then Some (Normal (Settled (Fulfilled tt)), st1)
        else
          match invoke host (S fuel) "modeChanged" [VStr m] st1 with
          | Some (_, st') => Some (Normal (Settled (Fulfilled tt)), st')
          | None => None
          end
    end.
Proof.
  intros Hs Hq. unfold setMode, invoke.
  change (exec host (S (S fuel)) (Method (CallSetMode m)) st)
    with (match store (set_mode m st) with
          | None => Some (Normal (Settled (Rejected TypeError)), set_mode m st)
          | Some s =>
              match exec host (S fuel) (External (StoreSetMode (store_ref s) m))
                      (set_mode m st) with
              | Some (Normal _, st2) =>
                  if negb (String.eqb m (mode st)) then
                    match exec host (S fuel)
                            (Method (CallInvoke "modeChanged" [VStr (mode st2)])) st2 with
                    | Some (_, st3) => Some (Normal (Settled (Fulfilled tt)), st3)
                    | None => None
                    end
                  else Some (Normal (Settled (Fulfilled tt)), st2)
              | Some (Throw e, st2) => Some (Normal (Settled (Rejected e)), st2)
              | None => None
              end
          end).
  change (store (set_mode m st)) with (store st). rewrite Hs.
  rewrite exec_external_quiet by exact Hq.
  change (trace (set_mode m st)) with (trace st).
  cbv zeta.
  destruct (reply host (trace st) (StoreSetMode (store_ref s) m)) as [v | e];
    [| reflexivity].
  destruct (String.eqb m (mode st)); reflexivity.
Qed.

Lemma setMode_gives_promise (host : Host) (fuel : nat) (m : string)
    (st : Manager) (c : Completion Result) (st' : Manager) :
  setMode host fuel m st = Some (c, st') -> exists p, c = Normal (Settled p).
Proof.
  unfold setMode. destruct fuel as [| fuel]; [discriminate |]. cbn [exec].
  destruct (store (set_mode m st)) as [s |];
    [| intros [= <- <-]; eexists; reflexivity].
  destruct (exec host fuel (External (StoreSetMode (store_ref s) m)) (set_mode m st))
    as [[[v | e] st2] |]; [| intros [= <- <-]; eexists; reflexivity | discriminate].
  destruct (negb (String.eqb m (mode st)));
    [| intros [= <- <-]; eexists; reflexivity].
  destruct (exec host fuel _ st2) as [[c3 st3] |];
    [intros [= <- <-]; eexists; reflexivity | discriminate].
Qed.

(** C5. [setMode(mode)] never throws to its caller.  It assigns [mode]
    to the stored mode in every case, which changes it only when the two
    differ, and then calls [store.setMode(mode)], also when the mode is
    the same.  Without a store, or when [store.setMode] throws, the
    promise is rejected and no event is fired, the mode being switched
    nonetheless.  When [store.setMode] returns (the store not calling
    back), nothing else happens for an unchanged mode, and for a changed
    mode [invoke('modeChanged', [mode])] runs exactly once: handlers
    that do not call back are called with the new mode in registration
    order, up to the first that throws, all of them once when none
    throws, and the stored mode is the new one. *)
Theorem setMode_fires_when_store_accepts (host : Host) (m : string) (st : Manager) :
  (forall fuel c st',
     setMode host fuel m st = Some (c, st') -> exists p, c = Normal (Settled p)) /\
  (store st = None ->
   forall fuel,
     setMode host (S fuel) m st
     = Some (Normal (Settled (Rejected TypeError)), set_mode m st)) /\
  (forall s,
     store st = Some s ->
     quiet host (StoreSetMode (store_ref s) m) ->
     let c := StoreSetMode (store_ref s) m in
     let st1 := set_trace (trace st ++ [c]) (set_mode m st) in
     (forall e,
        reply host (trace st) c = Throws e ->
        forall fuel,
          setMode host (S (S fuel)) m st = Some (Normal (Settled (Rejected e)), st1)) /\
     (forall v,
        reply host (trace st) c = Returns v ->
        (m = mode st ->
         forall fuel,
           setMode host (S (S fuel)) m st
           = Some (Normal (Settled (Fulfilled tt)), set_trace (trace st ++ [c]) st)) /\
        (m <> mode st ->
         (forall fuel,
            setMode host (S (S fuel)) m st
            = match invoke host (S fuel) "modeChanged" [VStr m] st1 with
              | Some (_, st') => Some (Normal (Settled (Fulfilled tt)), st')
              | None => None
              end) /\
         ((forall cb, cb ∈ handlers "modeChanged" st -> quiet host (Apply cb [VStr m])) ->
          exists fuel0, forall fuel, fuel0 <= fuel ->
          exists st',
            setMode host fuel m st = Some (Normal (Settled (Fulfilled tt)), st') /\
            mode st' = m /\
            (exists k,
               trace st'
               = trace st ++ c :: applied [VStr m] (take k (handlers "modeChanged" st))) /\
            ((forall h cb, cb ∈ handlers "modeChanged" st ->
                exists v, reply host h (Apply cb [VStr m]) = Returns v) ->
             trace st'
             = trace st ++ c :: applied [VStr m] (handlers "modeChanged" st)))))).
Proof.
  split; [intros fuel c st'; apply setMode_gives_promise |].
  split.
  { intros Hs fuel. unfold setMode. cbn [exec].
    change (store (set_mode m st)) with (store st). rewrite Hs. reflexivity. }
  intros s Hs Hq c st1. split.
  { intros e He fuel. rewrite (setMode_unfold host fuel m st s Hs Hq). cbv zeta.
    fold c. rewrite He. reflexivity. }
  intros v Hv. split.
  { intros -> fuel. rewrite (setMode_unfold host fuel _ st s Hs Hq). cbv zeta.
    fold c. rewrite Hv, String.eqb_refl. destruct st; reflexivity. }
  intros Hne.
  assert (Hrun : forall fuel,
            setMode host (S (S fuel)) m st
            = match invoke host (S fuel) "modeChanged" [VStr m] st1 with
              | Some (_, st') => Some (Normal (Settled (Fulfilled tt)), st')
              | None => None
              end).
  { intros fuel. rewrite (setMode_unfold host fuel m st s Hs Hq). cbv zeta.
    fold c. rewrite Hv.
    destruct (String.eqb_spec m (mode st)) as [Heq | _]; [contradiction |].
    reflexivity. }
  split; [exact Hrun |].
  intros Hquiet. exists (entries "modeChanged" st + 3). intros fuel Hfuel.
  destruct fuel as [| [| fuel]]; [lia | lia |].
  rewrite Hrun.
  rewrite (invoke_quiet host "modeChanged" [VStr m] st1 (S fuel));
    [| exact Hquiet | change (entries "modeChanged" st1) with (entries "modeChanged" st); lia].
  eexists. split; [reflexivity |].
  change (handlers "modeChanged" st1) with (handlers "modeChanged" st).
  change (trace st1) with (trace st ++ [c]).
  split.
  { unfold getEventCallbacks. destruct (callbacks st1 !! "modeChanged"); reflexivity. }
  split.
  - destruct (deliveries_take (reply host) [VStr m] (handlers "modeChanged" st)
                (trace st ++ [c])) as [k Hk].
    exists k. simpl. rewrite Hk, <- app_assoc. reflexivity.
  - intros Hok.
    destruct (deliveries_all_return (reply host) [VStr m] (handlers "modeChanged" st)
                (trace st ++ [c]) Hok) as [Hd _].
    simpl. rewrite Hd, <- app_assoc. reflexivity.
Qed.

Lemma setMode_fires_when_store_accepts_witness :
  (exists fuel st',
     setMode quiet_host fuel "labelstream" live_listening
     = Some (Normal (Settled (Fulfilled tt)), st') /\
     mode st' = "labelstream" /\
     trace st' = [StoreSetMode 1 "labelstream"; Apply 4 [VStr "labelstream"]]) /\
  (exists st',
     setMode quiet_host 2 "explorer" live_listening
     = Some (Normal (Settled (Fulfilled tt)), st') /\
     trace st' = [StoreSetMode 1 "explorer"]).
Proof.
  split.
  - destruct (setMode_fires_when_store_accepts quiet_host "labelstream" live_listening)
      as (_ & _ & Hstore).
    destruct (Hstore (app_store 1) eq_refl) as [_ Hret]; [intros h; reflexivity |].
    destruct (Hret VUndefined eq_refl) as [_ Hchanged].
    destruct Hchanged as [_ Hfire]; [discriminate |].
    destruct Hfire as [fuel0 Hfire]; [intros cb _ h; reflexivity |].
    destruct (Hfire fuel0 (le_n _)) as (st' & Hrun & Hmode & _ & Htrace).
    exists fuel0, st'. split; [exact Hrun |]. split; [exact Hmode |].
    apply Htrace. intros h cb _. exists VUndefined. reflexivity.
  - destruct (setMode_fires_when_store_accepts quiet_host "explorer" live_listening)
      as (_ & _ & Hstore).
    destruct (Hstore (app_store 1) eq_refl) as [_ Hret]; [intros h; reflexivity |].
    destruct (Hret VUndefined eq_refl) as [Hsame _].
    eexists. split; [apply (Hsame eq_refl 0) | reflexivity].
Defined.

(** Before the app is there, with the handler [4] subscribed to
    [modeChanged]: [setMode("labelstream")] switches the mode from
    [explorer] to [labelstream] and calls no handler. *)
Lemma setMode_without_store_fires_nothing :
  mode starting_listening = "explorer" /\
  handlers "modeChanged" starting_listening = [4] /\
  exists st',
    setMode quiet_host 3 "labelstream" starting_listening
    = Some (Normal (Settled (Rejected TypeError)), st') /\
    mode st' = "labelstream" /\
    trace st' = [].
Proof.
  split; [reflexivity |]. split; [reflexivity |].
  eexists. split; [vm_compute; reflexivity |]. split; reflexivity.
Qed.


(** *** Callees that do not call back: the two models agree *)

Lemma elements_Some (l : list FnRef) : elements (map Some l) = l.
Proof. induction l as [| x l IH]; simpl; [reflexivity | f_equal; exact IH]. Qed.

Lemma embed_stands_for (st : State) : stands_for (embed st) st.
Proof.
  unfold stands_for, embed. simpl. repeat split.
  induction (DataManager.sets st) as [| l ls IH]; simpl; [reflexivity |].
  rewrite elements_Some. f_equal. exact IH.
Qed.

Lemma elements_elem_of (x : FnRef) (es : list (option FnRef)) :
  Some x ∈ es <-> x ∈ elements es.
Proof.
  unfold elements. rewrite list_elem_of_omap. split.
  - intros H. exists (Some x). auto.
  - intros (y & Hy & Heq). simpl in Heq. subst y. exact Hy.
Qed.

Lemma elements_js_add (x : FnRef) (es : list (option FnRef)) :
  elements (js_add x es) = DataManager.js_add x (elements es).
Proof.
  unfold js_add, DataManager.js_add.
  destruct (decide (Some x ∈ es)) as [Hin | Hout];
    destruct (decide (x ∈ elements es)) as [Hin' | Hout'].
  - reflexivity.
  - exfalso. apply Hout', elements_elem_of, Hin.
  - exfalso. apply Hout, elements_elem_of, Hin'.
  - unfold elements. rewrite omap_app. reflexivity.
Qed.

Lemma elements_js_delete (x : FnRef) (es : list (option FnRef)) :
  elements (js_delete x es) = DataManager.js_delete x (elements es).
Proof.
  unfold js_delete, DataManager.js_delete.
  induction es as [| [y |] es IH]; simpl; [reflexivity | | exact IH].
  destruct (decide (Some y = Some x)) as [[= ->] | Hne]; simpl.
  - rewrite filter_cons_False by (intros H; apply H; reflexivity). exact IH.
  - rewrite filter_cons_True by congruence. simpl. f_equal. exact IH.
Qed.

Lemma elements_js_clear (es : list (option FnRef)) : elements (js_clear es) = [].
Proof. induction es as [| e es IH]; simpl; [reflexivity | exact IH]. Qed.

Lemma stands_for_lookup (m : Manager) (st : State) (r : SetRef) :
  stands_for m st ->
  elements (default [] (sets m !! r)) = default [] (DataManager.sets st !! r).
Proof.
  intros (_ & _ & _ & Hsets & _). rewrite <- Hsets, list_lookup_fmap.
  destruct (sets m !! r); reflexivity.
Qed.

Lemma stands_for_handlers (m : Manager) (st : State) (n : string) :
  stands_for m st -> handlers n m = DataManager.handlers n st.
Proof.
  intros H. unfold handlers, DataManager.handlers.
  destruct H as (Hm & Hs & Hc & Hsets & Ht). rewrite Hc.
  destruct (DataManager.callbacks st !! n) as [r |]; [| reflexivity].
  apply stands_for_lookup. repeat split; assumption.
Qed.

Lemma stands_for_getEventCallbacks (m : Manager) (st : State) (n : string) :
  stands_for m st ->
  Normal (getEventCallbacks n m).1 = (DataManager.getEventCallbacks n st).1 /\
  stands_for (getEventCallbacks n m).2 (DataManager.getEventCallbacks n st).2.
Proof.
  intros (Hm & Hs & Hc & Hsets & Ht).
  unfold getEventCallbacks, DataManager.getEventCallbacks. unfold_monad.
  rewrite Hc. destruct (DataManager.callbacks st !! n); simpl.
  - split; [reflexivity | repeat split; assumption].
  - split.
    + rewrite <- Hsets, length_fmap. reflexivity.
    + repeat split; try assumption. simpl. rewrite fmap_app, Hsets. reflexivity.
Qed.

Lemma stands_for_alter (m : Manager) (st : State) (r : SetRef)
    (f : list (option FnRef) -> list (option FnRef)) (g : list FnRef -> list FnRef) :
  (forall es, elements (f es) = g (elements es)) ->
  stands_for m st ->
  stands_for (set_sets (alter f r (sets m)) m)
    (DataManager.set_sets (alter g r (DataManager.sets st)) st).
Proof.
  intros Hfg (Hm & Hs & Hc & Hsets & Ht). repeat split; try assumption.
  simpl. rewrite <- Hsets. apply list_fmap_alter, Forall_forall. intros es _. apply Hfg.
Qed.

(** [on], [off] and [hasHandler] do the same in both models. *)
Lemma on_agrees (m : Manager) (st : State) (n : string) (cb : FnRef) :
  stands_for m st -> stands_for (on n cb m) (DataManager.on n cb st).2.
Proof.
  intros H. destruct (stands_for_getEventCallbacks m st n H) as [Hr Hst].
  unfold on, DataManager.on. unfold_monad.
  destruct (getEventCallbacks n m) as [r m1].
  destruct (DataManager.getEventCallbacks n st) as [[r' | e] st1]; simpl in *;
    [| discriminate].
  injection Hr as <-. unfold set_update, modify. simpl.
  pose proof (stands_for_alter m1 st1 r _ _ (elements_js_add cb) Hst) as Ha.
  destruct Ha as (Hm & Hs & Hc & Hsets & Ht).
  repeat split; try assumption. simpl. simpl in Hc. rewrite Hc. reflexivity.
Qed.

Lemma off_agrees (m : Manager) (st : State) (n : string) (cb : option FnRef) :
  stands_for m st -> stands_for (off n cb m) (DataManager.off n cb st).2.
Proof.
  intros H. destruct (stands_for_getEventCallbacks m st n H) as [Hr Hst].
  unfold off, DataManager.off. unfold_monad.
  destruct (getEventCallbacks n m) as [r m1].
  destruct (DataManager.getEventCallbacks n st) as [[r' | e] st1]; simpl in *;
    [| discriminate].
  injection Hr as <-. unfold set_update, modify.
  destruct cb as [f |]; simpl.
  - apply (stands_for_alter m1 st1 r _ _ (elements_js_delete f) Hst).
  - apply (stands_for_alter m1 st1 r js_clear (fun _ => []) elements_js_clear Hst).
Qed.

Lemma hasHandler_agrees (m : Manager) (st : State) (n : string) :
  stands_for m st ->
  Normal (hasHandler n m).1 = (DataManager.hasHandler n st).1 /\
  stands_for (hasHandler n m).2 (DataManager.hasHandler n st).2.
Proof.
  intros H. destruct (stands_for_getEventCallbacks m st n H) as [Hr Hst].
  unfold hasHandler, DataManager.hasHandler. unfold_monad.
  destruct (getEventCallbacks n m) as [r m1].
  destruct (DataManager.getEventCallbacks n st) as [[r' | e] st1]; simpl in *;
    [| discriminate].
  injection Hr as <-. unfold set_elements, gets. simpl.
  rewrite (stands_for_lookup m1 st1 r Hst). split; [reflexivity | exact Hst].
Qed.

Lemma dispatch_ending (env : Env) (args : list Value) (hs : list FnRef) (st : State) :
  (dispatch env args hs st).1
  = match ending env (DataManager.trace st) args hs with
    | Normal _ => Normal tt
    | Throw e => Throw e
    end.
Proof.
  revert st. induction hs as [| cb hs IH]; intros st; simpl; [reflexivity |].
  unfold dispatch in *. simpl. unfold_monad. unfold call.
  destruct (env (DataManager.trace st) (Apply cb args)) as [v | e]; simpl;
    [apply IH | reflexivity].
Qed.

(** In a host whose callees do not call back, [invoke] here ends, with
    the promise of [invoke] of [DataManager] and in the state that stands
    for the one that it leaves. *)
Lemma invoke_agrees (env : Env) (n : string) (args : list Value) (m : Manager)
    (st : State) (fuel : nat) :
  stands_for m st ->
  entries n m + 1 < fuel ->
  exists p m',
    invoke (external env) fuel n args m = Some (Normal (Settled p), m') /\
    (DataManager.invoke env n args st).1 = Normal p /\
    stands_for m' (DataManager.invoke env n args st).2.
Proof.
  intros H Hfuel.
  rewrite invoke_quiet; [| intros cb _ h; reflexivity | exact Hfuel].
  rewrite invoke_unfold. cbv zeta. cbn [fst snd].
  rewrite dispatch_ending, dispatch_state, getEventCallbacks_trace.
  change (reply (external env)) with env.
  rewrite (stands_for_handlers m st n H).
  destruct (stands_for_getEventCallbacks m st n H) as [_ Hst].
  assert (Ht : trace m = DataManager.trace st) by apply H.
  rewrite Ht.
  destruct (ending env (DataManager.trace st) args (DataManager.handlers n st))
    as [v | e]; simpl; eexists; eexists; (split; [reflexivity |]);
    (split; [reflexivity |]);
    destruct Hst as (Hm & Hs & Hc & Hsets & Ht'); repeat split; assumption.
Qed.

(** The same for [setMode]. *)
Lemma setMode_agrees (env : Env) (mo : string) (m : Manager) (st : State) (fuel : nat) :
  stands_for m st ->
  entries "modeChanged" m + 2 < fuel ->
  exists p m',
    setMode (external env) fuel mo m = Some (Normal (Settled p), m') /\
    (DataManager.setMode env mo st).1 = Normal p /\
    stands_for m' (DataManager.setMode env mo st).2.
Proof.
  intros H Hfuel. destruct fuel as [| [| fuel]]; [lia | lia |].
  pose proof H as (Hm & Hs & Hc & Hsets & Ht).
  destruct (DataManager.store st) as [s |] eqn:Hstore.
  - rewrite (setMode_unfold (external env) fuel mo m s Hs)
      by (intros h; reflexivity).
    cbv zeta. change (reply (external env)) with env. rewrite Ht, Hm.
    assert (H1 : stands_for
                   (set_trace (DataManager.trace st ++ [StoreSetMode (store_ref s) mo])
                      (set_mode mo m))
                   (DataManager.set_trace
                      (DataManager.trace st ++ [StoreSetMode (store_ref s) mo])
                      (DataManager.set_mode mo st))).
    { repeat split; simpl; congruence. }
    destruct (env (DataManager.trace st) (StoreSetMode (store_ref s) mo)) as [v | e] eqn:Hv.
    + rewrite (setMode_run env mo st s v Hstore Hv). cbv zeta. cbn [fst snd].
      destruct (String.eqb mo (DataManager.mode st)).
      * eexists; eexists. split; [reflexivity |]. split; [reflexivity | exact H1].
      * destruct (invoke_agrees env "modeChanged" [VStr mo] _ _ (S fuel) H1)
          as (p & m' & Hrun & _ & Hst');
          [change (entries "modeChanged" _) with (entries "modeChanged" m); lia |].
        rewrite Hrun. eexists; eexists.
        split; [reflexivity |]. split; [reflexivity | exact Hst'].
    + unfold DataManager.setMode. unfold_monad. unfold this_store, call. simpl.
      rewrite Hstore. simpl. rewrite Hv. simpl.
      eexists; eexists. split; [reflexivity |]. split; [reflexivity | exact H1].
  - unfold setMode. cbn [exec]. change (store (set_mode mo m)) with (store m).
    rewrite Hs.
    unfold DataManager.setMode. unfold_monad. unfold this_store. simpl.
    rewrite Hstore. simpl.
    eexists; eexists. split; [reflexivity |]. split; [reflexivity |].
    repeat split; simpl; congruence.
Qed.

End LiveBus.

(** * Further properties *)

(** ** The event bus in reachable states *)

(** [off] on one event leaves the handlers of the others alone. *)
Lemma off_other (n n' : string) (cb : option FnRef) (st : State) :
  callbacks_wf st -> n' <> n ->
  handlers n' (off n cb st).2 = handlers n' st.
Proof.
  intros [Hb Hi] Hne. unfold off. unfold_monad. unfold handlers.
  destruct (callbacks st !! n) as [r |] eqn:Hn.
  - rewrite (getEventCallbacks_known _ _ _ Hn).
    assert (Hgoal : forall f : list FnRef -> list FnRef,
              match callbacks st !! n' with
              | Some r' => default [] (alter f r (sets st) !! r')
              | None => []
              end
              = match callbacks st !! n' with
                | Some r' => default [] (sets st !! r')
                | None => []
                end).
    { intros f. destruct (callbacks st !! n') as [r' |] eqn:Hn'; [| reflexivity].
      rewrite list_lookup_alter_ne; [reflexivity |].
      intros <-. apply Hne. apply (Hi n' n r Hn' Hn). }
    destruct cb as [f |]; unfold set_update; unfold_monad; simpl; apply Hgoal.
  - rewrite (getEventCallbacks_unknown _ _ Hn).
    assert (Hgoal : forall f : list FnRef -> list FnRef,
              match callbacks st !! n' with
              | Some r' => default [] (alter f (length (sets st)) (sets st ++ [[]]) !! r')
              | None => []
              end
              = match callbacks st !! n' with
                | Some r' => default [] (sets st !! r')
                | None => []
                end).
    { intros f. destruct (callbacks st !! n') as [r' |] eqn:Hn'; [| reflexivity].
      assert (Hr' := Hb n' r' Hn').
      rewrite list_lookup_alter_ne by lia.
      rewrite lookup_app_l by exact Hr'. reflexivity. }
    destruct cb as [f |]; unfold set_update; unfold_monad; simpl; apply Hgoal.
Qed.

Lemma on_trace (n : string) (cb : FnRef) (st : State) :
  (on n cb st).1 = Normal tt /\ trace (on n cb st).2 = trace st.
Proof. rewrite on_run. destruct (callbacks st !! n); split; reflexivity. Qed.

Lemma off_trace (n : string) (cb : option FnRef) (st : State) :
  (off n cb st).1 = Normal tt /\ trace (off n cb st).2 = trace st /\
  callbacks (off n cb st).2 = callbacks st.
Proof.
  unfold off. unfold_monad.
  destruct (callbacks st !! n) as [r |] eqn:Hn.
  - rewrite (getEventCallbacks_known _ _ _ Hn). destruct cb; repeat split.
  - rewrite (getEventCallbacks_unknown _ _ Hn). destruct cb; repeat split.
Qed.

Lemma js_add_In (cb : FnRef) (l : list FnRef) : cb ∈ js_add cb l.
Proof.
  unfold js_add. destruct (decide (cb ∈ l)) as [Hin | Hout]; [exact Hin |].
  apply elem_of_app. right. left.
Qed.

Lemma js_add_idem (cb : FnRef) (l : list FnRef) : js_add cb (js_add cb l) = js_add cb l.
Proof.
  unfold js_add at 1. rewrite decide_True by apply js_add_In. reflexivity.
Qed.

Lemma js_delete_add (cb : FnRef) (l : list FnRef) :
  cb ∉ l -> js_delete cb (js_add cb l) = l.
Proof.
  intros Hout. unfold js_add, js_delete. rewrite decide_False by exact Hout.
  rewrite filter_app. simpl. rewrite filter_cons_False by (intros H; apply H; reflexivity).
  rewrite filter_nil, app_nil_r.
  induction l as [| x l IH]; [reflexivity |].
  apply not_elem_of_cons in Hout as [Hx Hl].
  rewrite filter_cons_True by congruence. f_equal. apply IH, Hl.
Qed.

Section ReachableBus.
Variable env : Env.
Variable native : string -> bool.
Variable config_mode : option string.
Variable prepared : gmap string Value.
Variable ops : list HostOp.

Local Abbreviation reached := (run_ops env native ops (constructor env config_mode prepared)).

Lemma reached_wf : callbacks_wf reached.
Proof. apply (bus_inv_reachable env native config_mode prepared ops). Qed.

Lemma reached_on_wf (n : string) (cb : FnRef) : callbacks_wf (on n cb reached).2.
Proof.
  apply (bus_inv_step env native ops (OpOn n cb) reached
           (bus_inv_reachable env native config_mode prepared ops)).
Qed.

(** X1. In every state that a constructed manager reaches,
    [on(name, cb)] returns without any external call; [cb] is then the
    last handler of [name], unless it was registered already, in which
    case the handlers of [name] are as before; the handlers of every
    other event are unchanged, and [hasHandler(name)] is true. *)
Theorem on_registers_handler (n : string) (cb : FnRef) :
  let st' := (on n cb reached).2 in
  (on n cb reached).1 = Normal tt /\
  trace st' = trace reached /\
  handlers n st'
  = (if decide (cb ∈ handlers n reached) then handlers n reached
     else handlers n reached ++ [cb]) /\
  (forall n', n' <> n -> handlers n' st' = handlers n' reached) /\
  (hasHandler n st').1 = Normal true.
Proof.
  cbv zeta. destruct (on_trace n cb reached) as [Hok Htr].
  destruct (on_handlers n cb reached reached_wf) as [Hn Hother].
  split; [exact Hok |]. split; [exact Htr |]. split; [exact Hn |].
  split; [exact Hother |].
  rewrite (hasHandler_value env), Hn. f_equal. apply bool_decide_eq_true_2.
  assert (Hin := js_add_In cb (handlers n reached)).
  destruct (js_add cb (handlers n reached)); [apply elem_of_nil in Hin; destruct Hin |].
  simpl. lia.
Qed.

(** X2. Registering the same callback twice for an event is the same as
    registering it once: after the second [on(name, cb)] every event has
    the handlers it had after the first. *)
Theorem on_twice_is_on_once (n : string) (cb : FnRef) (m : string) :
  handlers m (on n cb (on n cb reached).2).2 = handlers m (on n cb reached).2.
Proof.
  destruct (on_handlers n cb (on n cb reached).2 (reached_on_wf n cb)) as [Hn Hother].
  destruct (decide (m = n)) as [-> | Hne].
  - rewrite Hn. destruct (on_handlers n cb reached reached_wf) as [-> _].
    apply js_add_idem.
  - apply Hother, Hne.
Qed.

(** X3. In every reachable state, [off(name, cb)] removes [cb] from the
    handlers of [name] and keeps the others, in their order, while
    [off(name)] removes them all, after which [hasHandler(name)] is
    false.  Neither makes an external call, throws, changes the
    [callbacks] map or touches the handlers of another event. *)
Theorem off_unregisters (n : string) (cb : FnRef) :
  let without_cb := (off n (Some cb) reached).2 in
  let without_any := (off n None reached).2 in
  handlers n without_cb = js_delete cb (handlers n reached) /\
  (cb ∉ handlers n without_cb) /\
  (forall f, f <> cb -> f ∈ handlers n reached -> f ∈ handlers n without_cb) /\
  handlers n without_any = [] /\
  (hasHandler n without_any).1 = Normal false /\
  (forall o : option FnRef,
     (off n o reached).1 = Normal tt /\
     trace (off n o reached).2 = trace reached /\
     callbacks (off n o reached).2 = callbacks reached /\
     forall n', n' <> n -> handlers n' (off n o reached).2 = handlers n' reached).
Proof.
  assert (Hsome := off_handlers n (Some cb) reached reached_wf).
  assert (Hnone := off_handlers n None reached reached_wf).
  simpl in Hsome, Hnone. cbv zeta.
  split; [exact Hsome |]. split; [| split; [| split; [exact Hnone | split]]].
  - rewrite Hsome. unfold js_delete. rewrite list_elem_of_filter.
    intros [Hne _]. apply Hne. reflexivity.
  - intros f Hf Hin. rewrite Hsome. unfold js_delete.
    apply list_elem_of_filter. split; assumption.
  - rewrite (hasHandler_value env), Hnone. reflexivity.
  - intros o. destruct (off_trace n o reached) as (Hok & Htr & Hc).
    split; [exact Hok |]. split; [exact Htr |]. split; [exact Hc |].
    intros n' Hne. apply off_other; [apply reached_wf | exact Hne].
Qed.

(** X4. In every reachable state, registering a callback that the event
    does not have and unregistering it again gives every event the
    handlers it had. *)
Theorem on_off_round_trip (n : string) (cb : FnRef) (m : string) :
  cb ∉ handlers n reached ->
  handlers m (off n (Some cb) (on n cb reached).2).2 = handlers m reached.
Proof.
  intros Hout.
  destruct (on_handlers n cb reached reached_wf) as [Hn Hother].
  destruct (decide (m = n)) as [-> | Hne].
  - rewrite (off_handlers n (Some cb) _ (reached_on_wf n cb)), Hn.
    apply js_delete_add, Hout.
  - rewrite (off_other n m (Some cb) _ (reached_on_wf n cb) Hne).
    apply Hother, Hne.
Qed.

End ReachableBus.

Lemma on_off_round_trip_witness :
  handlers "ready" (off "ready" (Some 9) (on "ready" 9 listening).2).2
  = handlers "ready" listening.
Proof.
  apply (on_off_round_trip quiet_env toolbar_instruments None ∅
           [OpResume (app_store 1); OpOn "modeChanged" 4; OpOn "ready" 5] "ready" 9 "ready").
  vm_compute. intros H. apply list_elem_of_In in H. simpl in H.
  destruct H as [H | []]. discriminate H.
Defined.

(** The lookup of a name either changes nothing or allocates an empty
    set. *)
Lemma getEventCallbacks_state (n : string) (st : State) :
  (getEventCallbacks n st).2 = st \/
  (getEventCallbacks n st).2 = set_sets (sets st ++ [[]]) st.
Proof.
  unfold getEventCallbacks. unfold_monad.
  destruct (callbacks st !! n); [left | right]; reflexivity.
Qed.

(** An empty set allocated at the end changes no handlers. *)
Lemma handlers_alloc (m : string) (st : State) :
  callbacks_wf st ->
  handlers m (set_sets (sets st ++ [[]]) st) = handlers m st.
Proof.
  intros [Hb _]. unfold handlers. simpl.
  destruct (callbacks st !! m) as [r |] eqn:Hr; [| reflexivity].
  rewrite lookup_app_l by (apply (Hb m r Hr)). reflexivity.
Qed.

(** ** The action registry *)

Section MapDelete.
Context {V : Type}.
Implicit Types (m : list (Value * V)) (k : Value) (v : V).

Lemma map_get_delete_ne m k k' : k <> k' -> map_get k' (map_delete k m) = map_get k' m.
Proof.
  intros Hne. induction m as [| [k0 v0] m IH]; simpl; [reflexivity |].
  destruct (decide (k0 = k)) as [-> | Hk0]; simpl.
  - rewrite decide_False by exact Hne. reflexivity.
  - destruct (decide (k0 = k')); [reflexivity | exact IH].
Qed.

Lemma map_delete_absent m k : map_get k m = None -> map_delete k m = m.
Proof.
  induction m as [| [k0 v0] m IH]; simpl; [reflexivity |].
  destruct (decide (k0 = k)); [discriminate |]. intros H. f_equal. apply IH, H.
Qed.

Lemma map_get_delete_eq m k : NoDup m.*1 -> map_get k (map_delete k m) = None.
Proof.
  induction m as [| [k0 v0] m IH]; simpl; intros Hnd; [reflexivity |].
  apply NoDup_cons in Hnd as [Hk0 Hnd].
  destruct (decide (k0 = k)) as [-> | Hne]; simpl.
  - apply map_get_None_keys, Hk0.
  - rewrite decide_False by exact Hne. apply IH, Hnd.
Qed.

Lemma map_delete_set_absent m k v :
  map_get k m = None -> map_delete k (map_set k v m) = m.
Proof.
  induction m as [| [k0 v0] m IH]; simpl.
  - intros _. rewrite decide_True by reflexivity. reflexivity.
  - destruct (decide (k0 = k)) as [-> | Hne]; [discriminate |]. simpl.
    rewrite decide_False by exact Hne. intros H. f_equal. apply IH, H.
Qed.

Lemma map_get_Some_In m k v : map_get k m = Some v -> (k, v) ∈ m.
Proof.
  induction m as [| [k0 v0] m IH]; simpl; [discriminate |].
  destruct (decide (k0 = k)) as [-> | Hne].
  - intros [= ->]. left.
  - intros H. right. apply IH, H.
Qed.

End MapDelete.

(** What [removeAction] does. *)
Lemma removeAction_run (env : Env) (id : Value) (st : State) :
  removeAction env id st =
  let st1 := set_actions (map_delete id (actions st)) st in
  match store st with
  | None => (Throw TypeError, st1)
  | Some s =>
      let c := StoreRemoveAction (store_ref s) id in
      match env (trace st) c with
      | Returns _ => (Normal tt, set_trace (trace st ++ [c]) st1)
      | Throws e => (Throw e, set_trace (trace st ++ [c]) st1)
      end
  end.
Proof.
  unfold removeAction. unfold_monad. unfold this_store, call. simpl.
  destruct (store st) as [s |]; [| reflexivity]. simpl.
  destruct (env (trace st) _); reflexivity.
Qed.

Lemma removeAction_actions (env : Env) (id : Value) (st : State) :
  actions (removeAction env id st).2 = map_delete id (actions st).
Proof.
  rewrite removeAction_run. cbv zeta.
  destruct (store st); [destruct (env (trace st) _) |]; reflexivity.
Qed.

(** X6. In every reachable state the keys of the action registry are
    distinct, and the entry found under an id holds an action with that
    id, which is truthy. *)
Theorem registry_keys_reachable (env : Env) (native : string -> bool)
    (config_mode : option string) (prepared : gmap string Value)
    (ops : list HostOp) :
  let st := run_ops env native ops (constructor env config_mode prepared) in
  NoDup (actions st).*1 /\
  forall id e, map_get id (actions st) = Some e ->
    action_id (action e) = id /\ truthy id = true /\ getAction id st = Some (callback e).
Proof.
  intros st.
  destruct (actions_wf_reachable env native config_mode prepared ops) as [Hnd Hwf].
  split; [exact Hnd |]. intros id e He.
  rewrite Forall_forall in Hwf. destruct (Hwf _ (map_get_Some_In _ _ _ He)) as [Hid Ht].
  simpl in Hid, Ht. split; [symmetry; exact Hid |]. split; [exact Ht |].
  unfold getAction. fold st. rewrite He. reflexivity.
Qed.

(** X7. In every reachable state, after [removeAction(id)] no callback
    is registered under [id] and every other id has the callback it had,
    whether the call returned or threw; for an id that is not
    registered the registry is left exactly as it was.  The store's
    [removeAction(id)] is called in either case when there is a store;
    without a store the call ends in a [TypeError] after the entry is
    removed. *)
Theorem removeAction_spec (env : Env) (native : string -> bool)
    (config_mode : option string) (prepared : gmap string Value)
    (ops : list HostOp) (id : Value) :
  let st := run_ops env native ops (constructor env config_mode prepared) in
  let res := removeAction env id st in
  getAction id res.2 = None /\
  (forall k, k <> id -> getAction k res.2 = getAction k st) /\
  (getAction id st = None -> actions res.2 = actions st) /\
  (forall s, store st = Some s ->
     trace res.2 = trace st ++ [StoreRemoveAction (store_ref s) id]) /\
  (store st = None -> res.1 = Throw TypeError /\ trace res.2 = trace st).
Proof.
  intros st res. subst res.
  destruct (actions_wf_reachable env native config_mode prepared ops) as [Hnd _].
  fold st in Hnd. unfold getAction. rewrite removeAction_actions.
  split; [rewrite map_get_delete_eq by exact Hnd; reflexivity |].
  split; [intros k Hk; rewrite map_get_delete_ne by congruence; reflexivity |].
  split.
  { intros Hnone. apply map_delete_absent.
    destruct (map_get id (actions st)); [discriminate | reflexivity]. }
  rewrite removeAction_run. cbv zeta. split.
  - intros s ->. destruct (env (trace st) _); reflexivity.
  - intros ->. split; reflexivity.
Qed.

(** X8. Adding an action under an id that is not registered and
    removing that id again restores the registry, entry for entry. *)
Theorem addAction_removeAction_round_trip (env : Env) (a : Action) (cb : FnRef)
    (st : State) :
  truthy (action_id a) = true ->
  map_get (action_id a) (actions st) = None ->
  actions (removeAction env (action_id a) (addAction env a cb st).2).2 = actions st.
Proof.
  intros Hid Hnone. rewrite removeAction_actions.
  assert (Ha : actions (addAction env a cb st).2
               = map_set (action_id a) {| action := a; callback := cb |} (actions st)).
  { rewrite addAction_run by exact Hid. cbv zeta.
    destruct (store st); [destruct (env (trace st) _) |]; reflexivity. }
  rewrite Ha. apply map_delete_set_absent, Hnone.
Qed.

Lemma addAction_removeAction_round_trip_witness :
  actions (removeAction quiet_env (VStr "x")
             (addAction quiet_env action_x1 10 listening).2).2
  = actions listening.
Proof.
  apply (addAction_removeAction_round_trip quiet_env action_x1 10 listening);
    reflexivity.
Defined.

(** X9. In every reachable state, [installActions()] leaves the registry
    and every other field of the manager as they are: it only makes
    calls.  With a store in place, a run that returns has passed every
    registered action to [store.addActions], once each, in the order of
    the registry.  With an empty registry it does nothing at all, even
    without a store; with a registered action and no store it ends in a
    [TypeError] without any call. *)
Theorem installActions_spec (env : Env) (native : string -> bool)
    (config_mode : option string) (prepared : gmap string Value)
    (ops : list HostOp) :
  let st := run_ops env native ops (constructor env config_mode prepared) in
  let res := installActions env st in
  res.2 = set_trace (trace res.2) st /\
  (forall s, store st = Some s -> res.1 = Normal tt ->
     trace res.2 = trace st ++ added s (actions st)) /\
  (actions st = [] -> res = (Normal tt, st)) /\
  (store st = None -> actions st <> [] -> res = (Throw TypeError, st)).
Proof.
  intros st res. subst res.
  assert (Hwf := actions_wf_reachable env native config_mode prepared ops).
  fold st in Hwf.
  assert (Hempty : actions st = [] -> installActions env st = (Normal tt, st)).
  { intros He. unfold installActions. unfold_monad. rewrite He. reflexivity. }
  assert (Hnone : store st = None -> actions st <> [] ->
                  installActions env st = (Throw TypeError, st)).
  { intros Hs Hne. unfold installActions. unfold_monad.
    destruct Hwf as [Hnd Hall].
    destruct (actions st) as [| [k [a cb]] l] eqn:Ha; [contradiction |].
    simpl. unfold_monad.
    assert (Hin : (k, {| action := a; callback := cb |}) ∈ actions st)
      by (rewrite Ha; left).
    apply Forall_cons in Hall as [[Hk Hid] _]. simpl in Hk, Hid. subst k.
    rewrite addAction_run by exact Hid. cbv zeta. rewrite Hs.
    rewrite <- Ha in Hnd. rewrite (map_set_same _ _ _ Hnd Hin).
    destruct st; reflexivity. }
  split; [| split; [| split; [exact Hempty | exact Hnone]]].
  - destruct (store st) as [s |] eqn:Hs.
    + apply (installActions_run env s st Hs Hwf).
    + destruct (actions st) as [| e l] eqn:Ha.
      * rewrite Hempty by reflexivity. symmetry. apply set_trace_id.
      * rewrite Hnone by (reflexivity || discriminate). symmetry. apply set_trace_id.
  - intros s Hs. apply (installActions_run env s st Hs Hwf).
Qed.

Lemma initApp_resume_store (env : Env) (s : Store) (st : State) :
  store (initApp_resume env s st).2 = Some s.
Proof.
  rewrite initApp_resume_state, invoke_state. simpl.
  destruct (getEventCallbacks_state "ready" (set_store (Some s) st)) as [-> | ->];
    reflexivity.
Qed.

(** X10. An action added while the store does not exist yet is not lost:
    [addAction] ends in a [TypeError] without any call, but the entry is
    registered; once [initApp] has resumed with a store, an
    [installActions()] that returns has passed that action to the
    store. *)
Theorem addAction_before_ready_is_installed_later (env : Env) (a : Action)
    (cb : FnRef) (st : State) (s : Store) :
  store st = None ->
  actions_wf st ->
  truthy (action_id a) = true ->
  let st1 := (addAction env a cb st).2 in
  let st2 := (initApp_resume env s st1).2 in
  (addAction env a cb st).1 = Throw TypeError /\
  trace st1 = trace st /\
  getAction (action_id a) st1 = Some cb /\
  ((installActions env st2).1 = Normal tt ->
   StoreAddActions (store_ref s) a ∈ trace (installActions env st2).2).
Proof.
  intros Hs Hwf Hid st1 st2.
  assert (Hentry := addAction_entry env a cb st Hid). fold st1 in Hentry.
  assert (Hwf1 : actions_wf st1) by apply addAction_actions_wf, Hwf.
  split; [| split; [| split]].
  - rewrite addAction_run by exact Hid. cbv zeta. rewrite Hs. reflexivity.
  - subst st1. rewrite addAction_run by exact Hid. cbv zeta. rewrite Hs. reflexivity.
  - unfold getAction. rewrite Hentry. reflexivity.
  - intros Hok.
    assert (Ha2 : actions st2 = actions st1) by apply initApp_resume_neutral.
    assert (Hwf2 : actions_wf st2) by (unfold actions_wf; rewrite Ha2; exact Hwf1).
    destruct (installActions_run env s st2 (initApp_resume_store env s st1) Hwf2)
      as [_ Htrace].
    rewrite (Htrace Hok), Ha2. apply elem_of_app. right.
    unfold added. apply list_elem_of_fmap.
    exists (action_id a, {| action := a; callback := cb |}).
    split; [reflexivity | apply map_get_Some_In, Hentry].
Qed.

Lemma addAction_before_ready_is_installed_later_witness :
  StoreAddActions 1 action_x1
    ∈ trace (installActions quiet_env
               (initApp_resume quiet_env (app_store 1)
                  (addAction quiet_env action_x1 10 created).2).2).2.
Proof.
  apply (addAction_before_ready_is_installed_later quiet_env action_x1 10 created
           (app_store 1)).
  - reflexivity.
  - split; simpl; constructor.
  - reflexivity.
  - reflexivity.
Defined.

(** ** Calls made while the store is missing or failing *)

(** X11. [registerInstrument] for a name that is not native, called
    while the store does not exist: the initializer is called with an
    undefined store, the instance it returns is stored under the name,
    and the call then ends in a [TypeError], [store.updateInstruments]
    being out of reach. *)
Theorem registerInstrument_without_store (env : Env) (native : string -> bool)
    (name : string) (initializer : FnRef) (st : State) (v : Value) :
  store st = None ->
  native name = false ->
  env (trace st) (Initialize initializer None) = Returns v ->
  registerInstrument env native name initializer st
  = (Throw TypeError,
     set_trace (trace st ++ [Initialize initializer None])
       (set_instruments (<[name := v]> (instruments st)) st)).
Proof.
  intros Hs Hn Hv. unfold registerInstrument. rewrite Hn.
  unfold_monad. unfold call, this_store. rewrite Hs. simpl. rewrite Hv. simpl.
  rewrite Hs. reflexivity.
Qed.

Lemma registerInstrument_without_store_witness :
  (registerInstrument instrument_env toolbar_instruments "my-button" 3 created).1
  = Throw TypeError /\
  instruments (registerInstrument instrument_env toolbar_instruments "my-button" 3
                 created).2 !! "my-button" = Some (VObj 7).
Proof.
  rewrite (registerInstrument_without_store instrument_env toolbar_instruments
             "my-button" 3 created (VObj 7)); [| reflexivity ..].
  split; [reflexivity |]. simpl. apply lookup_insert_eq.
Defined.



(** X13. [startLabeling()] never throws to its caller and changes no
    field of the manager.  It makes at most one call, and that call is a
    [loadTask] on the current editor with the id of the selected task,
    outside [labelstream] mode. *)
Theorem startLabeling_at_most_one_loadTask (env : Env) (st : State) :
  exists p new,
    startLabeling env st = (Normal p, set_trace (trace st ++ new) st) /\
    (new = [] \/
     exists l s t annotationID,
       lsf st = Some l /\ store st = Some s /\ taskStore_selected s = Obj t /\
       mode st <> "labelstream" /\
       new = [LoadTask (lsf_ref l) (task_id t) annotationID]).
Proof.
  assert (Hnil : forall p : Promise unit,
            exists p' new, (Normal p, st) = (Normal p', set_trace (trace st ++ new) st) /\
              (new = [] \/
               exists l s t annotationID,
                 lsf st = Some l /\ store st = Some s /\ taskStore_selected s = Obj t /\
                 mode st <> "labelstream" /\
                 new = [LoadTask (lsf_ref l) (task_id t) annotationID])).
  { intros p. exists p, []. split; [| left; reflexivity].
    rewrite app_nil_r, set_trace_id. reflexivity. }
  unfold startLabeling. unfold_monad. unfold this_store, call. simpl.
  destruct (store st) as [s |] eqn:Hs; simpl; [| apply Hnil].
  destruct (same_task _ _); simpl; [apply Hnil |].
  destruct (lsf st) as [l |] eqn:Hl; simpl; [| apply Hnil].
  destruct (String.eqb_spec (mode st) "labelstream") as [Hm | Hm]; simpl; [apply Hnil |].
  destruct (_ || _); simpl; [| apply Hnil].
  destruct (taskStore_selected s) as [| | t] eqn:Ht; simpl; try apply Hnil.
  set (c := LoadTask _ _ _).
  destruct (env (trace st) c); simpl; eexists _, [c];
    (split; [reflexivity |]); right; exists l, s, t; eexists; repeat split; assumption.
Qed.

(** X14. [startLabeling()] without a selected task, outside
    [labelstream] mode and with an editor that shows a task or with a
    defined annotation: the promise is rejected with a [TypeError] and
    nothing is loaded.  It is rejected in the same way when the store
    does not exist. *)
Theorem startLabeling_without_task (env : Env) (st : State) :
  (store st = None -> startLabeling env st = (Normal (Rejected TypeError), st)) /\
  (forall s l,
     store st = Some s ->
     (forall t, taskStore_selected s <> Obj t) ->
     lsf st = Some l ->
     mode st <> "labelstream" ->
     opt_field task_id (lsf_task l) <> VUndefined \/ annotationStore_selected s <> Undef ->
     startLabeling env st = (Normal (Rejected TypeError), st)).
Proof.
  split.
  - intros Hs. unfold startLabeling. unfold_monad. unfold this_store.
    rewrite Hs. reflexivity.
  - intros s l Hs Ht Hl Hm Hwhy.
    unfold startLabeling. unfold_monad. unfold this_store. rewrite Hs. simpl.
    rewrite Hl.
    destruct (String.eqb_spec (mode st) "labelstream") as [| _]; [contradiction |].
    assert (Hguard : negb (strict_eq (opt_field task_id (lsf_task l))
                             (opt_field task_id (taskStore_selected s)))
                     || is_defined (annotationStore_selected s) = true).
    { destruct Hwhy as [Hdiff | Hdef].
      - destruct (taskStore_selected s) as [| | t]; [| | destruct (Ht t); reflexivity];
          unfold strict_eq; simpl; rewrite bool_decide_eq_false_2 by exact Hdiff;
          reflexivity.
      - destruct (annotationStore_selected s); [contradiction | |]; apply orb_true_r. }
    destruct (taskStore_selected s) as [| | t] eqn:Hsel;
      [| | destruct (Ht t); reflexivity];
      simpl; simpl in Hguard; rewrite Hguard; reflexivity.
Qed.

(** ** Tear-down and start-up *)

(** X15. [destroy] calls [store.destroy()] only when there is a store
    that has this method, and then unmounts the root.  When one of the
    two throws, [destroy] throws as well and nothing else has happened:
    even with [detachCallbacks] set, every subscription is still there.
    A [reload()] whose [destroy(false)] throws stops there: no app is
    created and no action is reinstalled. *)
Theorem destroy_failure_keeps_subscriptions (env : Env) (d : bool) (st : State) :
  exists t,
    t `prefix_of` destroy_calls st /\
    trace (destroy env d st).2 = trace st ++ t /\
    ((destroy env d st).1 = Normal tt -> t = destroy_calls st) /\
    (forall e, (destroy env d st).1 = Throw e ->
       (destroy env d st).2 = set_trace (trace st ++ t) st /\
       forall n, handlers n (destroy env d st).2 = handlers n st) /\
    (forall e, (destroy env false st).1 = Throw e ->
       reload env st = destroy env false st).
Proof.
  destruct (destroy_run env d st) as (t & Hpre & [[e He] | [-> He]]).
  - exists t. split; [exact Hpre |]. rewrite He. simpl.
    split; [reflexivity |]. split; [discriminate |]. split.
    + intros e' _. split; reflexivity.
    + intros e' Hf. unfold reload. unfold_monad.
      destruct (destroy env false st) as [[[] | e''] st'] eqn:Hd;
        [discriminate | reflexivity].
  - exists (destroy_calls st). split; [reflexivity |]. rewrite He. simpl.
    split; [destruct d; reflexivity |]. split; [reflexivity |]. split.
    + intros e' [=].
    + intros e' Hf. unfold reload. unfold_monad.
      destruct (destroy env false st) as [[[] | e''] st'] eqn:Hd;
        [discriminate | reflexivity].
Qed.

(** ** What the [DataView] component shows *)

(** X17. [renderContent] returns the content it is given exactly when
    [total] is not zero and the project has data; the loading and
    labeling flags play no part in that. *)
Theorem renderContent_shows_content_iff {C : Type} (isLoading : bool) (total : Z)
    (isLabeling hasData : bool) (c c' : C) :
  renderContent isLoading total isLabeling hasData c = Shown c'
  <-> c' = c /\ total <> 0%Z /\ hasData = true.
Proof.
  unfold renderContent.
  destruct (Z.eqb_spec total 0) as [-> | Hne]; destruct isLoading, isLabeling, hasData;
    simpl; split; try discriminate;
    try (intros (_ & H & _); congruence);
    try (intros (_ & _ & H); discriminate H);
    try (intros [= ->]; auto);
    try (intros (-> & _ & _); reflexivity).
Qed.

(** X18. [renderContent] shows the spinner exactly when the data is
    loading, [total] is zero and no labeling is going on; so while
    labeling, an empty loading table shows the empty placeholder instead.
    The placeholder offers the import button, under the text about
    importing tasks, exactly when the project has no data, and says that
    nothing was found otherwise. *)
Theorem renderContent_placeholders {C : Type} (isLoading : bool) (total : Z)
    (isLabeling hasData : bool) (c : C) :
  (renderContent isLoading total isLabeling hasData c = Spinner
   <-> isLoading = true /\ total = 0%Z /\ isLabeling = false) /\
  (forall description importButton,
     renderContent isLoading total isLabeling hasData c = Empty description importButton ->
     importButton = negb hasData /\
     description
     = (if hasData then "Nothing's found."
        else "Before you can start labeling, you need to import tasks.")) /\
  (isLoading = true -> total = 0%Z -> isLabeling = true ->
   exists description importButton,
     renderContent isLoading total isLabeling hasData c = Empty description importButton).
Proof.
  unfold renderContent.
  destruct (Z.eqb_spec total 0) as [-> | Hne]; destruct isLoading, isLabeling, hasData;
    simpl; (split; [split; [try discriminate; auto | intros (H1 & H2 & H3);
                                                       try discriminate; try contradiction;
                                                       reflexivity] |]);
    (split; [intros d b H; try discriminate H; injection H as <- <-; auto |]);
    intros H1 H2 H3; try discriminate; try contradiction; eauto.
Qed.

(** X19. Without a data store in the root store, the injected props are
    an empty list, a total of zero and a loading flag that is set.  The
    component then shows the spinner, or the empty placeholder when the
    store says that labeling is going on, provided that there is a
    current view and that this view has a data store and a root of its
    own; it fails exactly when the current view, the view's data store
    or the view's root is missing. *)
Theorem DataView_without_dataStore {Row : Type} (store : RootStore Row) :
  dataStore store = None ->
  data (injector store) = [] /\
  total (injector store) = 0%Z /\
  isLoading (injector store) = true /\
  focusedItem (injector store) = None /\
  (DataView_component store = None
   <-> currentView store = None \/
       (exists v, currentView store = Some v /\
          (current_dataStore v = None \/ current_root v = None))) /\
  (forall v, currentView store = Some v ->
     is_Some (current_dataStore v) -> is_Some (current_root v) ->
     DataView_component store
     = Some (if default false (isLabeling store)
             then Empty (if hasData (injector store) then "Nothing's found."
                         else "Before you can start labeling, you need to import tasks.")
                        (negb (hasData (injector store)))
             else Spinner)).
Proof.
  intros Hds. unfold DataView_component, injector. rewrite Hds. simpl.
  do 4 (split; [reflexivity |]). split.
  - destruct (currentView store) as [v |]; simpl.
    + destruct (current_dataStore v) as [ds |] eqn:Hd; simpl.
      * destruct (current_root v) as [r |] eqn:Hr; simpl.
        -- split; [discriminate |].
           intros [H | (v' & [= <-] & [H | H])]; congruence.
        -- split; [intros _; right; exists v; auto | reflexivity].
      * split; [intros _; right; exists v; auto | reflexivity].
    + split; [intros _; left; reflexivity | reflexivity].
  - intros v -> [ds Hd] [r Hr]. simpl. rewrite Hd. simpl. rewrite Hr. simpl.
    unfold renderContent. simpl.
    destruct (default false (isLabeling store)); reflexivity.
Qed.

(** X20. The grid is chosen exactly when the view's root is not labeling
    and the type of the view is defined and is not [list]; a view
    without type gets the table.  The table sorts only when the type of
    the view is [list]: a table shown for a view without type, or for
    another type while labeling, has sorting disabled. *)
Theorem content_choice (v : ViewFields) (isLabeling : bool) :
  let c := content v (default "list" (view_type v)) isLabeling in
  (c = GridContent
   <-> view_root_isLabeling v = false /\
       exists t, view_type v = Some t /\ t <> "list") /\
  (forall p, c = TableContent p ->
     (sortingEnabled p = true <-> view_type v = Some "list") /\
     fitContent p = isLabeling /\
     stopInteractions p = view_dataStore_loading v).
Proof.
  cbv zeta. unfold content. split.
  - destruct (view_root_isLabeling v); simpl.
    + split; [discriminate | intros [H _]; discriminate H].
    + destruct (view_type v) as [t |]; simpl.
      * destruct (String.eqb_spec t "list") as [-> | Hne].
        -- split; [discriminate | intros [_ (t' & [= <-] & H)]; contradiction].
        -- split; [intros _; split; [reflexivity | eauto] | reflexivity].
      * split; [discriminate | intros [_ (t' & [=] & _)]].
  - intros p. destruct (_ || _); [| discriminate].
    intros [= <-]. simpl. split; [| split; reflexivity].
    apply bool_decide_eq_true.
Qed.

(** X21. The modal of the component is never visible: its state starts
    as [undefined] and every handler sets it to the empty string, both of
    which are falsy. *)
Theorem modal_never_visible (events : list ModalEvent) :
  modal_visible (modal_run events) = false.
Proof.
  unfold modal_run.
  assert (Hrun : forall v, modal_visible v = false ->
            modal_visible (foldl (fun _ e => modal_handler e) v events) = false).
  { induction events as [| e events IH]; intros v Hv; simpl; [exact Hv |].
    apply IH. destruct e; reflexivity. }
  apply Hrun. reflexivity.
Qed.

Lemma DataView_without_dataStore_witness :
  DataView_component starting_store = Some Spinner /\
  DataView_component detached_view_store = None.
Proof.
  split.
  - destruct (DataView_without_dataStore starting_store eq_refl)
      as (_ & _ & _ & _ & _ & Hview).
    rewrite (Hview _ eq_refl); [reflexivity | eexists; reflexivity ..].
  - destruct (DataView_without_dataStore detached_view_store eq_refl)
      as (_ & _ & _ & _ & Hfail & _).
    apply Hfail. right. eexists. split; [reflexivity |]. left. reflexivity.
Defined.

Lemma startLabeling_without_task_witness :
  startLabeling quiet_env editing_unselected
  = (Normal (Rejected TypeError), editing_unselected).
Proof.
  destruct (startLabeling_without_task quiet_env editing_unselected) as [_ Hno].
  apply (Hno (app_store 1)
           {| lsf_ref := 2;
              lsf_task := Obj {| task_id := VNum 11; lastAnnotation := Undef |} |}).
  - reflexivity.
  - intros t. discriminate.
  - reflexivity.
  - discriminate.
  - left. discriminate.
Defined.

(** ** The mode getters *)




(** ** The project id *)

(** X23. Once [_projectId] holds a value that is not nullish, set
    through the setter or found by an earlier read, the [projectId]
    getter returns it without reading the root: it does so whatever the
    root has become, even with no root at all.  While [_projectId] is
    nullish the getter reads [root.dataset?.projectId] and keeps what it
    finds; without a root it throws a [TypeError] and changes nothing. *)
Theorem get_projectId_memoises (st : Setup) :
  (forall v, nullish v = false ->
     get_projectId (set_projectId v st) = (Normal v, set_projectId v st)) /\
  (forall v st1,
     get_projectId st = (Normal v, st1) -> nullish v = false ->
     forall r, get_projectId (set_root r st1) = (Normal v, set_root r st1)) /\
  (nullish (_projectId st) = true ->
     match root st with
     | Obj r =>
         get_projectId st
         = (Normal (opt_field dataset_projectId (dataset r)),
            set__projectId (opt_field dataset_projectId (dataset r)) st)
     | _ => get_projectId st = (Throw TypeError, st)
     end).
Proof.
  split; [| split].
  - intros v Hv. unfold get_projectId, set_projectId. simpl. rewrite Hv. reflexivity.
  - intros v st1 Hget Hv r. unfold get_projectId in *.
    destruct (nullish (_projectId st)) eqn:Hn.
    + destruct (root st) as [| | r0]; try discriminate.
      injection Hget as <- <-. simpl. rewrite Hv. reflexivity.
    + injection Hget as <- <-. simpl. rewrite Hn. reflexivity.
  - intros Hn. unfold get_projectId. rewrite Hn. destruct (root st); reflexivity.
Qed.

Lemma get_projectId_memoises_witness :
  get_projectId (set_root Undef (get_projectId page).2)
  = (Normal (VStr "7"), set_root Undef (get_projectId page).2).
Proof.
  destruct (get_projectId_memoises page) as (_ & Hmemo & _).
  apply (Hmemo (VStr "7") (get_projectId page).2); reflexivity.
Defined.

(** ** The API configuration *)

Lemma get_projectId_objects (o : list (gmap string Value)) (st : Setup) :
  get_projectId (set_objects o st)
  = ((get_projectId st).1, set_objects o (get_projectId st).2).
Proof.
  unfold get_projectId. simpl.
  destruct (nullish (_projectId st)); [destruct (root st) |]; reflexivity.
Qed.

(** A read that returned returns the same value again and changes
    nothing more. *)
Lemma get_projectId_again (st st1 : Setup) (v : Value) :
  get_projectId st = (Normal v, st1) -> get_projectId st1 = (Normal v, st1).
Proof.
  unfold get_projectId.
  destruct (nullish (_projectId st)) eqn:Hn.
  - destruct (root st) as [| | r] eqn:Hr; try discriminate.
    intros [= <- <-]. simpl. rewrite Hr.
    destruct (nullish (opt_field dataset_projectId (dataset r))); reflexivity.
  - intros [= <- <-]. simpl. rewrite Hn. reflexivity.
Qed.

Section ApiConfigRun.
Variable APIConfig : nat.
Variable o : ApiOptions.
Variable st stp : Setup.
Variable source old : gmap string Value.
Variable e : nat.
Variable project : Value.
Hypothesis Hsource : objects st !! APIConfig = Some source.
Hypothesis Hendpoints : source !! "endpoints" = Some (VObj e).
Hypothesis Hold : objects st !! e = Some old.
Hypothesis Hproject : get_projectId st = (Normal project, stp).

Local Abbreviation copied :=
  (<["commonHeaders" := apiHeaders o]>
     (<["mockDisabled" := apiMockDisabled o]>
        (<["gateway" := coalesce (apiGateway o) (prop source "gateway")]> source))).
Local Abbreviation c := (length (objects st)).
Local Abbreviation shared :=
  (assign (default ∅ (apiSharedParams o)) {["project" := project]}).
Local Abbreviation final :=
  (alter (assign {["sharedParams" := VObj (S c)]}) c
     (alter (assign (default ∅ (apiEndpoints o))) e (objects st ++ [copied]) ++ [shared])).

Lemma apiConfig_run :
  apiConfig APIConfig o st = (Normal (VObj c), set_objects final stp).
Proof.
  unfold apiConfig. rewrite Hsource. cbv zeta.
  change (default ∅ (Some source)) with source.
  assert (Hp : prop copied "endpoints" = VObj e).
  { unfold prop. rewrite !lookup_insert_ne by discriminate. rewrite Hendpoints.
    reflexivity. }
  rewrite Hp. change (nullish (VObj e)) with false. cbv iota.
  rewrite !get_projectId_objects, Hproject. simpl.
  rewrite length_alter, length_app. simpl.
  replace (length (objects st) + 1) with (S (length (objects st))) by lia.
  reflexivity.
Qed.

Lemma final_endpoints :
  final !! e = Some (assign (default ∅ (apiEndpoints o)) old).
Proof.
  assert (He : e < c) by (apply lookup_lt_Some in Hold; exact Hold).
  rewrite list_lookup_alter_ne by lia.
  rewrite lookup_app_l by (rewrite length_alter, length_app; lia).
  rewrite list_lookup_alter_eq, lookup_app_l by lia. rewrite Hold. reflexivity.
Qed.

Lemma final_config :
  final !! c = Some (assign {["sharedParams" := VObj (S c)]} copied).
Proof.
  assert (He : e < c) by (apply lookup_lt_Some in Hold; exact Hold).
  rewrite list_lookup_alter_eq.
  rewrite lookup_app_l by (rewrite length_alter, length_app; simpl; lia).
  rewrite list_lookup_alter_ne by lia.
  rewrite lookup_app_r, Nat.sub_diag by lia. reflexivity.
Qed.

Lemma final_shared : final !! S c = Some shared.
Proof.
  rewrite list_lookup_alter_ne by lia.
  rewrite lookup_app_r by (rewrite length_alter, length_app; simpl; lia).
  rewrite length_alter, length_app. simpl.
  replace (S c - (c + 1)) with 0 by lia. reflexivity.
Qed.

Lemma final_APIConfig : APIConfig <> e -> final !! APIConfig = Some source.
Proof.
  intros Hne.
  assert (Ha : APIConfig < c) by (apply lookup_lt_Some in Hsource; exact Hsource).
  rewrite list_lookup_alter_ne by lia.
  rewrite lookup_app_l by (rewrite length_alter, length_app; lia).
  rewrite list_lookup_alter_ne by congruence.
  rewrite lookup_app_l by lia. exact Hsource.
Qed.

End ApiConfigRun.

(** X24. [apiConfig] copies [APIConfig] shallowly: the configuration it
    returns is a new object, [APIConfig] itself keeps its properties,
    but the [endpoints] of both are one object, and the endpoints given
    in the options are written into it.  So they stay: a later
    [apiConfig], whatever its options, returns a configuration whose
    endpoints still hold them, under whatever the later options add. *)
Theorem apiConfig_shares_endpoints (APIConfig : nat) (o : ApiOptions) (st stp : Setup)
    (source old : gmap string Value) (e : nat) (project : Value) :
  objects st !! APIConfig = Some source ->
  source !! "endpoints" = Some (VObj e) ->
  objects st !! e = Some old ->
  APIConfig <> e ->
  get_projectId st = (Normal project, stp) ->
  exists c st',
    apiConfig APIConfig o st = (Normal (VObj c), st') /\
    objects st !! c = None /\
    (exists config, objects st' !! c = Some config /\ prop config "endpoints" = VObj e) /\
    objects st' !! APIConfig = Some source /\
    objects st' !! e = Some (default ∅ (apiEndpoints o) ∪ old) /\
    (forall o2, exists c2 st2,
       apiConfig APIConfig o2 st' = (Normal (VObj c2), st2) /\
       (exists config2, objects st2 !! c2 = Some config2 /\
                        prop config2 "endpoints" = VObj e) /\
       objects st2 !! e
       = Some (default ∅ (apiEndpoints o2) ∪ (default ∅ (apiEndpoints o) ∪ old))).
Proof.
  intros Hsource Hendpoints Hold Hne Hproject.
  assert (Hconfig : forall (o' : ApiOptions) (st0 stp0 : Setup) old0,
            objects st0 !! APIConfig = Some source ->
            objects st0 !! e = Some old0 ->
            get_projectId st0 = (Normal project, stp0) ->
            exists config,
              (apiConfig APIConfig o' st0).2.(objects) !! length (objects st0)
              = Some config /\ prop config "endpoints" = VObj e).
  { intros o' st0 stp0 old0 Hs0 Ho0 Hp0.
    rewrite (apiConfig_run APIConfig o' st0 stp0 source e project Hs0 Hendpoints Hp0).
    simpl. rewrite (final_config o' st0 source old0 e project Ho0).
    eexists. split; [reflexivity |].
    unfold prop, assign. rewrite lookup_union_r by (apply lookup_singleton_ne; discriminate).
    rewrite !lookup_insert_ne by discriminate. rewrite Hendpoints. reflexivity. }
  exists (length (objects st)), (apiConfig APIConfig o st).2.
  split; [rewrite (apiConfig_run APIConfig o st stp source e project
                     Hsource Hendpoints Hproject); reflexivity |].
  split; [apply lookup_ge_None_2; lia |].
  split; [apply (Hconfig o st stp old Hsource Hold Hproject) |].
  rewrite (apiConfig_run APIConfig o st stp source e project Hsource Hendpoints Hproject).
  simpl.
  assert (Hsource' := final_APIConfig APIConfig o st source e project Hsource Hne).
  assert (Hold' := final_endpoints o st source old e project Hold).
  split; [exact Hsource' |]. split; [exact Hold' |].
  intros o2.
  set (st' := set_objects _ stp) in *.
  assert (Hproject' : get_projectId st' = (Normal project, st')).
  { subst st'. rewrite get_projectId_objects.
    rewrite (get_projectId_again st stp project Hproject). reflexivity. }
  exists (length (objects st')), (apiConfig APIConfig o2 st').2.
  split; [rewrite (apiConfig_run APIConfig o2 st' st' source e project
                     Hsource' Hendpoints Hproject'); reflexivity |].
  split; [apply (Hconfig o2 st' st' _ Hsource' Hold' Hproject') |].
  rewrite (apiConfig_run APIConfig o2 st' st' source e project
             Hsource' Hendpoints Hproject').
  simpl. apply (final_endpoints o2 st' source _ e project Hold').
Qed.

Lemma apiConfig_shares_endpoints_witness :
  objects (apiConfig 0 no_options (apiConfig 0 options page).2).2 !! 1
  = Some (∅ ∪ ({[ "columns" := VStr "/columns" ]} ∪ {[ "tasks" := VStr "/tasks" ]})).
Proof.
  destruct (apiConfig_shares_endpoints 0 options page (get_projectId page).2
              {[ "gateway" := VStr "/api"; "endpoints" := VObj 1 ]}
              {[ "tasks" := VStr "/tasks" ]} 1 (VStr "7"))
    as (c & st' & Hrun & _ & _ & _ & _ & Hlater);
    [reflexivity | reflexivity | reflexivity | discriminate | reflexivity |].
  destruct (Hlater no_options) as (c2 & st2 & Hrun2 & _ & He).
  rewrite Hrun. simpl. rewrite Hrun2. simpl. exact He.
Defined.

(** X25. The configuration that [apiConfig] returns has the gateway of
    the options, or that of [APIConfig] when the options give none; its
    [mockDisabled] and [commonHeaders] are those of the options even when
    these are undefined; every other property of [APIConfig] is copied.
    Its [sharedParams] is a new object holding the shared parameters of
    the options and, under [project], the project id of the manager,
    unless the shared parameters carry a [project] of their own, which
    then wins. *)
Theorem apiConfig_fields (APIConfig : nat) (o : ApiOptions) (st stp : Setup)
    (source old : gmap string Value) (e : nat) (project : Value) :
  objects st !! APIConfig = Some source ->
  source !! "endpoints" = Some (VObj e) ->
  objects st !! e = Some old ->
  get_projectId st = (Normal project, stp) ->
  exists c sp st' config shared,
    apiConfig APIConfig o st = (Normal (VObj c), st') /\
    objects st' !! c = Some config /\
    prop config "sharedParams" = VObj sp /\
    objects st' !! sp = Some shared /\
    objects st !! sp = None /\
    prop config "gateway" = coalesce (apiGateway o) (prop source "gateway") /\
    prop config "mockDisabled" = apiMockDisabled o /\
    prop config "commonHeaders" = apiHeaders o /\
    (forall k, k <> "gateway" -> k <> "mockDisabled" -> k <> "commonHeaders" ->
               k <> "sharedParams" -> config !! k = source !! k) /\
    prop shared "project" = default project (apiSharedParams o ≫= (.!! "project")) /\
    (forall k, k <> "project" -> shared !! k = apiSharedParams o ≫= (.!! k)).
Proof.
  intros Hsource Hendpoints Hold Hproject.
  eexists _, _, _, _, _.
  split; [apply (apiConfig_run APIConfig o st stp source e project
                   Hsource Hendpoints Hproject) |].
  simpl.
  split; [apply (final_config o st source old e project Hold) |].
  split; [unfold prop, assign; rewrite lookup_union_l' by (rewrite lookup_singleton_eq; eauto);
          rewrite lookup_singleton_eq; reflexivity |].
  split; [apply (final_shared o st source e project) |].
  split; [apply lookup_ge_None_2; lia |].
  unfold prop, assign.
  split; [rewrite lookup_union_r by (apply lookup_singleton_ne; discriminate);
          rewrite !lookup_insert_ne by discriminate;
          rewrite lookup_insert_eq; reflexivity |].
  split; [rewrite lookup_union_r by (apply lookup_singleton_ne; discriminate);
          rewrite lookup_insert_ne by discriminate;
          rewrite lookup_insert_eq; reflexivity |].
  split; [rewrite lookup_union_r by (apply lookup_singleton_ne; discriminate);
          rewrite lookup_insert_eq; reflexivity |].
  split.
  { intros k Hg Hm Hc Hs.
    rewrite lookup_union_r by (apply lookup_singleton_ne; congruence).
    rewrite !lookup_insert_ne by congruence. reflexivity. }
  split.
  - destruct (apiSharedParams o) as [params |]; simpl.
    + rewrite lookup_union. destruct (params !! "project") as [v |]; simpl.
      * rewrite lookup_singleton_eq. reflexivity.
      * rewrite lookup_singleton_eq. reflexivity.
    + rewrite lookup_union, lookup_empty, lookup_singleton_eq. reflexivity.
  - intros k Hk. destruct (apiSharedParams o) as [params |]; simpl.
    + rewrite lookup_union, lookup_singleton_ne by congruence.
      destruct (params !! k); reflexivity.
    + rewrite lookup_union, lookup_empty, lookup_singleton_ne by congruence.
      reflexivity.
Qed.

Lemma apiConfig_fields_witness :
  exists c sp st' shared,
    apiConfig 0 options page = (Normal (VObj c), st') /\
    objects st' !! sp = Some shared /\
    prop shared "project" = VNum 3.
Proof.
  destruct (apiConfig_fields 0 options page (get_projectId page).2
              {[ "gateway" := VStr "/api"; "endpoints" := VObj 1 ]}
              {[ "tasks" := VStr "/tasks" ]} 1 (VStr "7"))
    as (c & sp & st' & config & shared & Hrun & _ & _ & Hshared & _ & _ & _ & _ & _
        & Hp & _);
    [reflexivity | reflexivity | reflexivity | reflexivity |].
  exists c, sp, st', shared. split; [exact Hrun |]. split; [exact Hshared |].
  rewrite Hp. reflexivity.
Defined.

(** ** The editor life cycle *)

(** X26. [initLSF] reads the selection of the store first, so without a
    store it throws a [TypeError], editor or not.  With a store and an
    editor it does nothing.  An [initLSF] that returns leaves an editor
    in place, so that every later [initLSF] does nothing, whatever is
    selected by then: the wrapper is constructed once, after one
    [console.log], with the task, the annotation and the stream flag of
    that moment.  When the construction throws, no editor is recorded. *)
Theorem initLSF_constructs_once (env : EditorEnv) (st : EditorState) :
  (store (manager st) = None -> initLSF env st = (Throw TypeError, st)) /\
  (forall s l, store (manager st) = Some s -> lsf (manager st) = Some l ->
     initLSF env st = (Normal tt, st)) /\
  (forall st1, initLSF env st = (Normal tt, st1) ->
     is_Some (lsf (manager st1)) /\
     (forall env', initLSF env' st1 = (Normal tt, st1)) /\
     (lsf (manager st) = None ->
      exists s, store (manager st) = Some s /\
        editor_trace st1
        = editor_trace st ++
          [ConsoleLog "Initialize LSF";
           NewLSFWrapper (taskStore_selected s) (annotationStore_selected s)
             (String.eqb (mode (manager st)) "labelstream")])) /\
  (forall e st1, initLSF env st = (Throw e, st1) ->
     lsf (manager st1) = lsf (manager st)).
Proof.
  unfold initLSF. split; [intros ->; reflexivity |].
  split; [intros s l -> ->; reflexivity |].
  destruct (store (manager st)) as [s |] eqn:Hs.
  - destruct (lsf (manager st)) as [l |] eqn:Hl.
    + split.
      * intros st1 Heq. injection Heq as Heq. subst st1.
        split; [eauto |]. split.
        -- intros env'. unfold initLSF. rewrite Hs, Hl. reflexivity.
        -- intros Hno. discriminate Hno.
      * intros e st1 [=].
    + destruct (construct env _ _ _ _) as [l | e0] eqn:Hc.
      * split.
        -- intros st1 [= <-]. simpl. split; [eauto |]. split.
           ++ intros env'. unfold initLSF. simpl. rewrite Hs. reflexivity.
           ++ intros _. exists s. split; [reflexivity |].
              rewrite <- app_assoc. reflexivity.
        -- intros e st1 [=].
      * split; [intros st1 [=] |]. intros e st1 [= <- <-]. simpl. exact Hl.
  - split; [intros st1 [=] |]. intros e st1 [= <- <-]. reflexivity.
Qed.

Lemma initLSF_constructs_once_witness :
  initLSF stuck_editor_env (initLSF editor_env no_editor).2
  = (Normal tt, (initLSF editor_env no_editor).2).
Proof.
  destruct (initLSF_constructs_once editor_env no_editor) as (_ & _ & Hdone & _).
  destruct (Hdone (initLSF editor_env no_editor).2) as (_ & Hagain & _);
    [reflexivity |].
  apply Hagain.
Defined.

(** X27. [destroyLSF] without an editor makes no call and changes
    nothing.  With an editor it calls [destroy] on it once; when that
    returns the editor is forgotten, and a second [destroyLSF] does
    nothing; when it throws, [destroyLSF] throws as well and the manager
    still holds the editor. *)
Theorem destroyLSF_spec (env : EditorEnv) (st : EditorState) :
  (lsf (manager st) = None -> destroyLSF env st = (Normal tt, st)) /\
  (forall l, lsf (manager st) = Some l ->
     editor_trace (destroyLSF env st).2 = editor_trace st ++ [LsfDestroy (lsf_ref l)]) /\
  (forall st1, destroyLSF env st = (Normal tt, st1) ->
     lsf (manager st1) = None /\
     forall env', destroyLSF env' st1 = (Normal tt, st1)) /\
  (forall e st1, destroyLSF env st = (Throw e, st1) ->
     manager st1 = manager st /\ is_Some (lsf (manager st1))).
Proof.
  assert (Hnone : forall st0 : EditorState, lsf (manager st0) = None ->
            forall env0, destroyLSF env0 st0 = (Normal tt, st0)).
  { intros [m t] Hl env0. unfold destroyLSF. simpl in *. rewrite Hl.
    destruct m; simpl in *. subst. reflexivity. }
  split; [intros Hl; apply Hnone, Hl |].
  unfold destroyLSF. destruct (lsf (manager st)) as [l |] eqn:Hl.
  - split.
    { intros l' [= <-]. destruct (destroyed env _ _); reflexivity. }
    destruct (destroyed env _ _) as [[] | e0]; split.
    + intros st1 [= <-]. simpl. split; [reflexivity |].
      intros env'. first [reflexivity | apply Hnone; reflexivity].
    + intros e st1 [=].
    + intros st1 [=].
    + intros e st1 [= <- <-]. simpl. rewrite Hl. eauto.
  - split; [intros l [=] |]. split.
    + intros st1 [= <-]. simpl. split; [reflexivity |].
      intros env'. first [reflexivity | apply Hnone; reflexivity].
    + intros e st1 [=].
Qed.

Lemma destroyLSF_spec_witness :
  lsf (manager (destroyLSF editor_env (initLSF editor_env no_editor).2).2) = None /\
  is_Some
    (lsf (manager (destroyLSF stuck_editor_env (initLSF editor_env no_editor).2).2)).
Proof.
  split.
  - destruct (destroyLSF_spec editor_env (initLSF editor_env no_editor).2)
      as (_ & _ & Hok & _).
    apply (Hok (destroyLSF editor_env (initLSF editor_env no_editor).2).2).
    reflexivity.
  - destruct (destroyLSF_spec stuck_editor_env (initLSF editor_env no_editor).2)
      as (_ & _ & _ & Hthrow).
    apply (Hthrow (Error "busy")
             (destroyLSF stuck_editor_env (initLSF editor_env no_editor).2).2).
    reflexivity.
Defined.
